(** * one_click_kag_server: the provisioning workflow and the recursive SFTP mirror

    A shallow embedding of [one_click_kag_server/main.py] and
    [one_click_kag_server/sftp.py].

    - The local working directory and the remote home directory are trees of
      regular files and directories ([node]); a path is its list of components.
    - A Python function becomes an action of the monad [M]: it reads and
      writes one [World] (the [State] object, the state file, both file
      trees, the log of external calls, a millisecond clock, the open SSH
      sessions) and returns a value, raises an exception, or runs out of the
      fuel given to the retry loop.
    - Everything the outside decides (the provider's API, SSH, remote exit
      statuses, how long a call takes, [uuid4], [str()]) is read from an
      [Env], as a function of the calls made so far.
    - [logging] and [print] output is not part of the model. *)

From Stdlib Require Import String Ascii List ZArith Lia Bool Arith.
Import ListNotations.
Local Open Scope string_scope.
Local Open Scope list_scope.

(* ================================================================= *)
(** ** File trees *)

Definition path := list string.

#[local] Set Warnings "-register-all".

Inductive node : Type :=
| File (content : string)
| Dir (entries : list (string * node)).

Definition is_dir (n : node) : bool :=
  match n with Dir _ => true | File _ => false end.

Definition names (es : list (string * node)) : list string := map fst es.

Fixpoint find_entry (name : string) (es : list (string * node)) : option node :=
  match es with
  | [] => None
  | (n, c) :: rest => if String.eqb name n then Some c else find_entry name rest
  end.

(** Replace the entry called [name], or append it when there is none. *)
Fixpoint set_entry (name : string) (v : node) (es : list (string * node))
  : list (string * node) :=
  match es with
  | [] => [(name, v)]
  | (n, c) :: rest =>
      if String.eqb name n then (n, v) :: rest else (n, c) :: set_entry name v rest
  end.

Fixpoint remove_entry (name : string) (es : list (string * node))
  : list (string * node) :=
  match es with
  | [] => []
  | (n, c) :: rest =>
      if String.eqb name n then rest else (n, c) :: remove_entry name rest
  end.

Fixpoint lookup (n : node) (p : path) : option node :=
  match p with
  | [] => Some n
  | x :: p' =>
      match n with
      | File _ => None
      | Dir es =>
          match find_entry x es with
          | Some c => lookup c p'
          | None => None
          end
      end
  end.

(** [put_node n p v]: the tree [n] with [v] at [p]. Every proper prefix of
    [p] has to be a directory already; the last component may be new. *)
Fixpoint put_node (n : node) (p : path) (v : node) : option node :=
  match p with
  | [] => Some v
  | x :: p' =>
      match n with
      | File _ => None
      | Dir es =>
          match
            match find_entry x es with
            | Some c => put_node c p' v
            | None => match p' with [] => Some v | _ :: _ => None end
            end
          with
          | Some c' => Some (Dir (set_entry x c' es))
          | None => None
          end
      end
  end.

Fixpoint remove_node (n : node) (p : path) : node :=
  match p with
  | [] => n
  | x :: p' =>
      match n with
      | File _ => n
      | Dir es =>
          match p' with
          | [] => Dir (remove_entry x es)
          | _ :: _ =>
              match find_entry x es with
              | Some c => Dir (set_entry x (remove_node c p') es)
              | None => n
              end
          end
      end
  end.

(** No directory lists a name twice. *)
Fixpoint wf_node (n : node) : Prop :=
  match n with
  | File _ => True
  | Dir es =>
      NoDup (names es) /\
      (fix all (l : list (string * node)) : Prop :=
         match l with
         | [] => True
         | (_, c) :: rest => wf_node c /\ all rest
         end) es
  end.

(** Same names and same file contents, whatever the order of the listings. *)
Fixpoint tree_equiv (a b : node) : bool :=
  match a, b with
  | File x, File y => String.eqb x y
  | Dir es, Dir fs =>
      Nat.eqb (length es) (length fs) &&
      (fix all (l : list (string * node)) : bool :=
         match l with
         | [] => true
         | (n, c) :: rest =>
             match find_entry n fs with
             | Some d => tree_equiv c d && all rest
             | None => false
             end
         end) es
  | _, _ => false
  end.

(* ================================================================= *)
(** ** Exceptions and results *)

(** Why an [IOError] (Python 3's [OSError]) was raised. *)
Inductive io_reason : Type :=
| AlreadyExists
| NoSuchFile
| NotADirectory
| IsADirectory
| PermissionDenied
| ConnectionLost.

Inductive exn : Type :=
| IOError (why : io_reason)
| RuntimeError (msg : string)
| ValueError (msg : string)
| TypeError (msg : string)
| AttributeError (msg : string)
| KeyError (key : string)
| SSHException (msg : string)
| ProviderError (msg : string)
| CalledProcessError (code : Z)
| RetryError (attempt_number : nat) (last_attempt : exn).

Definition is_IOError (e : exn) : bool :=
  match e with IOError _ => true | _ => false end.

Inductive res (A : Type) : Type :=
| Ok (a : A)
| Raise (e : exn)
| OutOfFuel.
Arguments Ok {A} a.
Arguments Raise {A} e.
Arguments OutOfFuel {A}.

(** Tree operations as the operating system and the SFTP server answer them. *)

Definition fs_write (fs : node) (p : path) (data : string) : exn + node :=
  match lookup fs p with
  | Some (Dir _) => inl (IOError IsADirectory)
  | _ =>
      match put_node fs p (File data) with
      | Some fs' => inr fs'
      | None => inl (IOError NoSuchFile)
      end
  end.

Definition fs_read (fs : node) (p : path) : exn + string :=
  match lookup fs p with
  | Some (File data) => inr data
  | Some (Dir _) => inl (IOError IsADirectory)
  | None => inl (IOError NoSuchFile)
  end.

Definition fs_mkdir (fs : node) (p : path) : exn + node :=
  match lookup fs p with
  | Some _ => inl (IOError AlreadyExists)
  | None =>
      match put_node fs p (Dir []) with
      | Some fs' => inr fs'
      | None => inl (IOError NoSuchFile)
      end
  end.

Definition fs_listdir (fs : node) (p : path) : exn + list (string * node) :=
  match lookup fs p with
  | Some (Dir es) => inr es
  | Some (File _) => inl (IOError NotADirectory)
  | None => inl (IOError NoSuchFile)
  end.

(** [os.makedirs(p, exist_ok=True)]: create every missing component; an
    existing directory is fine, an existing regular file is not. *)
Fixpoint fs_makedirs (n : node) (p : path) : exn + node :=
  match p with
  | [] =>
      match n with
      | Dir _ => inr n
      | File _ => inl (IOError AlreadyExists)
      end
  | x :: p' =>
      match n with
      | File _ => inl (IOError NotADirectory)
      | Dir es =>
          let c := match find_entry x es with Some c => c | None => Dir [] end in
          match fs_makedirs c p' with
          | inr c' => inr (Dir (set_entry x c' es))
          | inl e => inl e
          end
      end
  end.

(** Components of a path written with slashes. *)
Fixpoint split_slash (acc : string) (s : string) : path :=
  match s with
  | EmptyString => if String.eqb acc "" then [] else [acc]
  | String c rest =>
      if Ascii.eqb c "/"%char
      then (if String.eqb acc "" then [] else [acc]) ++ split_slash "" rest
      else split_slash (acc ++ String c "")%string rest
  end.

Definition parse_path (s : string) : path := split_slash "" s.

(* ================================================================= *)
(** ** Python values of the configuration document *)

Inductive pyval : Type :=
| PyNone
| PyBool (b : bool)
| PyInt (z : Z)
| PyStr (s : string)
| PyList (items : list pyval)
| PyDict (fields : list (string * pyval)).

Fixpoint find_field (k : string) (d : list (string * pyval)) : option pyval :=
  match d with
  | [] => None
  | (k', v) :: rest => if String.eqb k k' then Some v else find_field k rest
  end.

(** [bool(v)] *)
Definition py_truthy (v : pyval) : bool :=
  match v with
  | PyNone => false
  | PyBool b => b
  | PyInt z => negb (Z.eqb z 0)
  | PyStr s => negb (String.eqb s "")
  | PyList l => match l with [] => false | _ => true end
  | PyDict d => match d with [] => false | _ => true end
  end.

(** [v.get(k, default)]: only a dict has [get]. *)
Definition py_get (v : pyval) (k : string) (default : pyval) : exn + pyval :=
  match v with
  | PyDict d =>
      match find_field k d with
      | Some x => inr x
      | None => inr default
      end
  | _ => inl (AttributeError "get")
  end.

(** [v[k]] for a string [k]. *)
Definition py_getitem (v : pyval) (k : string) : exn + pyval :=
  match v with
  | PyDict d =>
      match find_field k d with
      | Some x => inr x
      | None => inl (KeyError k)
      end
  | PyList _ | PyStr _ => inl (TypeError "indices must be integers")
  | _ => inl (TypeError "object is not subscriptable")
  end.

Fixpoint chars (s : string) : list pyval :=
  match s with
  | EmptyString => []
  | String c rest => PyStr (String c "") :: chars rest
  end.

(** [iter(v)]: what a [for] loop over [v] visits. *)
Definition py_iter (v : pyval) : exn + list pyval :=
  match v with
  | PyList l => inr l
  | PyDict d => inr (map (fun kv => PyStr (fst kv)) d)
  | PyStr s => inr (chars s)
  | _ => inl (TypeError "object is not iterable")
  end.

(** [v.items()] *)
Definition py_items (v : pyval) : exn + list (string * pyval) :=
  match v with
  | PyDict d => inr d
  | _ => inl (AttributeError "items")
  end.

(** The strings of an iterable, as [sep.join(v)] takes them. *)
Fixpoint all_strings (l : list pyval) : exn + list string :=
  match l with
  | [] => inr []
  | PyStr s :: rest =>
      match all_strings rest with
      | inr ss => inr (s :: ss)
      | inl e => inl e
      end
  | _ :: _ => inl (TypeError "sequence item: expected str instance")
  end.

Definition py_join (sep : string) (v : pyval) : exn + string :=
  match py_iter v with
  | inl e => inl e
  | inr l =>
      match all_strings l with
      | inl e => inl e
      | inr ss => inr (String.concat sep ss)
      end
  end.

(** [s.replace(old, new)] for a non-empty [old]: occurrences are taken from
    the left and do not overlap; [skip] counts the characters of a match
    still to drop. *)
Fixpoint replace_from (old new : string) (skip : nat) (s : string) : string :=
  match s with
  | EmptyString => EmptyString
  | String c rest =>
      match skip with
      | S k => replace_from old new k rest
      | O =>
          if String.prefix old s
          then (new ++ replace_from old new (String.length old - 1) rest)%string
          else String c (replace_from old new 0 rest)
      end
  end.

Definition str_replace (old new s : string) : string := replace_from old new 0 s.

(* ================================================================= *)
(** ** The state record, the log of external calls, the world *)

Record Droplet : Type := {
  droplet_id : nat;
  ip_address : string;
  status : string
}.

(** class [State] *)
Record State : Type := {
  ssh_key_name : option string;
  ssh_key_uploaded : bool;
  droplet : option Droplet;
  done_droplet_setup : bool;
  done_kag_setup : bool
}.

(** [State()] *)
Definition State_init : State :=
  {| ssh_key_name := None; ssh_key_uploaded := false; droplet := None;
     done_droplet_setup := false; done_kag_setup := false |}.

Definition set_ssh_key_name (v : option string) (s : State) : State :=
  {| ssh_key_name := v; ssh_key_uploaded := ssh_key_uploaded s;
     droplet := droplet s; done_droplet_setup := done_droplet_setup s;
     done_kag_setup := done_kag_setup s |}.

Definition set_ssh_key_uploaded (v : bool) (s : State) : State :=
  {| ssh_key_name := ssh_key_name s; ssh_key_uploaded := v;
     droplet := droplet s; done_droplet_setup := done_droplet_setup s;
     done_kag_setup := done_kag_setup s |}.

Definition set_droplet (v : option Droplet) (s : State) : State :=
  {| ssh_key_name := ssh_key_name s; ssh_key_uploaded := ssh_key_uploaded s;
     droplet := v; done_droplet_setup := done_droplet_setup s;
     done_kag_setup := done_kag_setup s |}.

Definition set_done_droplet_setup (v : bool) (s : State) : State :=
  {| ssh_key_name := ssh_key_name s; ssh_key_uploaded := ssh_key_uploaded s;
     droplet := droplet s; done_droplet_setup := v;
     done_kag_setup := done_kag_setup s |}.

Definition set_done_kag_setup (v : bool) (s : State) : State :=
  {| ssh_key_name := ssh_key_name s; ssh_key_uploaded := ssh_key_uploaded s;
     droplet := droplet s; done_droplet_setup := done_droplet_setup s;
     done_kag_setup := v |}.

(** One entry per call that leaves the process. *)
Inductive event : Type :=
| EvCreateKeypair                       (* create_ssh_keypair() *)
| EvSSHKeyCreate (name : string)        (* digitalocean.SSHKey(...).create() *)
| EvGetAllSSHKeys                       (* manager.get_all_sshkeys() *)
| EvDropletCreate                       (* droplet.create() *)
| EvDropletLoad                         (* droplet.load() *)
| EvDropletDestroy                      (* droplet.destroy() *)
| EvConnect (ip : string)               (* ssh.connect(ip, ...) *)
| EvExec (session : nat) (cmd : string) (* ssh.exec_command(cmd), read to its exit status *)
| EvClose (session : nat)               (* ssh.close() *)
| EvSftpOpen (session : nat)            (* ssh.open_sftp(), from_transport *)
| EvSftpClose (session : nat)           (* sftp.close() *)
| EvSftpPut (remote : path)             (* SFTPClient.put *)
| EvSftpGet (remote : path)             (* SFTPClient.get *)
| EvSftpMkdir (remote : path)           (* SFTPClient.mkdir *)
| EvSftpListdir (remote : path)         (* SFTPClient.listdir_attr *)
| EvSleep (seconds : Z)                 (* the retry loop's sleep *)
| EvSubprocess                          (* subprocess.check_call(["ssh", ...]) *)
| EvWebInterface                        (* kagtcprlib.webinterface.run *)
| EvChdir                               (* os.chdir(cwd) *)
| EvSaveState.                          (* state.save(path) *)

Record World : Type := {
  w_state : State;                 (* the object bound to [state] *)
  w_state_file : option State;     (* what the state file holds, when it exists *)
  w_config_file : option pyval;    (* the parsed configuration file, when it exists *)
  w_local : node;                  (* the local working directory *)
  w_remote : node;                 (* root's home directory on the droplet *)
  w_trace : list event;            (* external calls so far, oldest first *)
  w_clock : Z;                     (* time.monotonic(), in milliseconds *)
  w_sessions : list nat;           (* SSH sessions connected and not closed *)
  w_next_session : nat
}.

Definition upd_state (f : State -> State) (w : World) : World :=
  {| w_state := f (w_state w); w_state_file := w_state_file w;
     w_config_file := w_config_file w; w_local := w_local w;
     w_remote := w_remote w; w_trace := w_trace w; w_clock := w_clock w;
     w_sessions := w_sessions w; w_next_session := w_next_session w |}.

Definition upd_state_file (v : option State) (w : World) : World :=
  {| w_state := w_state w; w_state_file := v;
     w_config_file := w_config_file w; w_local := w_local w;
     w_remote := w_remote w; w_trace := w_trace w; w_clock := w_clock w;
     w_sessions := w_sessions w; w_next_session := w_next_session w |}.

Definition upd_local (v : node) (w : World) : World :=
  {| w_state := w_state w; w_state_file := w_state_file w;
     w_config_file := w_config_file w; w_local := v;
     w_remote := w_remote w; w_trace := w_trace w; w_clock := w_clock w;
     w_sessions := w_sessions w; w_next_session := w_next_session w |}.

Definition upd_remote (v : node) (w : World) : World :=
  {| w_state := w_state w; w_state_file := w_state_file w;
     w_config_file := w_config_file w; w_local := w_local w;
     w_remote := v; w_trace := w_trace w; w_clock := w_clock w;
     w_sessions := w_sessions w; w_next_session := w_next_session w |}.

Definition upd_trace (e : event) (elapsed : Z) (w : World) : World :=
  {| w_state := w_state w; w_state_file := w_state_file w;
     w_config_file := w_config_file w; w_local := w_local w;
     w_remote := w_remote w; w_trace := w_trace w ++ [e];
     w_clock := (w_clock w + elapsed)%Z;
     w_sessions := w_sessions w; w_next_session := w_next_session w |}.

Definition upd_sessions (v : list nat) (next : nat) (w : World) : World :=
  {| w_state := w_state w; w_state_file := w_state_file w;
     w_config_file := w_config_file w; w_local := w_local w;
     w_remote := w_remote w; w_trace := w_trace w; w_clock := w_clock w;
     w_sessions := v; w_next_session := next |}.

(** What the outside answers, given the calls made so far. *)
Record Env : Type := {
  env_uuid : list event -> string;
  env_keypair : list event -> string * string;
  env_sshkey_create : list event -> exn + unit;
  env_all_sshkeys : list event -> exn + list string;
  env_droplet_create : list event -> list (string * pyval) -> list string -> exn + Droplet;
  env_droplet_load : list event -> Droplet -> exn + Droplet;
  env_droplet_destroy : list event -> exn + unit;
  env_connect : list event -> string -> exn + unit;
  env_exec : list event -> string -> exn + (list string * Z);
  env_subprocess : list event -> exn + Z;
  env_webinterface : list event -> exn + unit;
  env_tmpname : list event -> string;
  env_str : pyval -> string;
  env_toml : string -> string -> string;
  env_duration : list event -> event -> nat
}.

(* ================================================================= *)
(** ** The monad of actions *)

Definition M (A : Type) : Type := World -> res A * World.

Definition ret {A} (a : A) : M A := fun w => (Ok a, w).

Definition bind {A B} (m : M A) (f : A -> M B) : M B :=
  fun w =>
    match m w with
    | (Ok a, w1) => f a w1
    | (Raise e, w1) => (Raise e, w1)
    | (OutOfFuel, w1) => (OutOfFuel, w1)
    end.

Notation "x <- m ;; k" := (bind m (fun x => k))
  (at level 61, m at next level, right associativity).
Notation "m ;; k" := (bind m (fun _ => k))
  (at level 61, right associativity).
Notation "' pat <- m ;; k" := (bind m (fun x => match x with pat => k end))
  (at level 61, pat pattern, m at next level, right associativity).

Definition raise {A} (e : exn) : M A := fun w => (Raise e, w).

Definition lift {A} (r : exn + A) : M A :=
  match r with
  | inr a => ret a
  | inl e => raise e
  end.

(** [if cond: raise e] *)
Definition raise_if (cond : bool) (e : exn) : M unit :=
  if cond then raise e else ret tt.

(** [for x in l: body(x)] *)
Fixpoint for_each {A} (body : A -> M unit) (l : list A) : M unit :=
  match l with
  | [] => ret tt
  | x :: rest => body x ;; for_each body rest
  end.

(** [try: body except <class>: handler] *)
Definition try_except {A} (body : M A) (catches : exn -> bool)
  (handler : exn -> M A) : M A :=
  fun w =>
    match body w with
    | (Raise e, w1) => if catches e then handler e w1 else (Raise e, w1)
    | other => other
    end.

(** [try: body finally: final]: [final] runs when [body] returns and when
    it raises; an exception of [final] replaces the outcome of [body]. *)
Definition try_finally {A} (body : M A) (final : M unit) : M A :=
  fun w =>
    match body w with
    | (OutOfFuel, w1) => (OutOfFuel, w1)
    | (r, w1) =>
        match final w1 with
        | (Ok _, w2) => (r, w2)
        | (Raise e, w2) => (Raise e, w2)
        | (OutOfFuel, w2) => (OutOfFuel, w2)
        end
    end.

(** The actions that touch the world directly; all others are built from
    them. *)

Definition read {A} (g : World -> A) : M A := fun w => (Ok (g w), w).

Definition get_state : M State := read w_state.

Definition modify_state (f : State -> State) : M unit :=
  fun w => (Ok tt, upd_state f w).

Definition write_state_file : M unit :=
  fun w => (Ok tt, upd_state_file (Some (w_state w)) w).

Definition update_local (f : node -> exn + node) : M unit :=
  fun w =>
    match f (w_local w) with
    | inr fs => (Ok tt, upd_local fs w)
    | inl e => (Raise e, w)
    end.

Definition update_remote (f : node -> exn + node) : M unit :=
  fun w =>
    match f (w_remote w) with
    | inr fs => (Ok tt, upd_remote fs w)
    | inl e => (Raise e, w)
    end.

Fixpoint remove_one (sid : nat) (l : list nat) : list nat :=
  match l with
  | [] => []
  | s :: rest => if Nat.eqb s sid then rest else s :: remove_one sid rest
  end.

Definition session_open : M nat :=
  fun w =>
    let sid := w_next_session w in
    (Ok sid, upd_sessions (sid :: w_sessions w) (S sid) w).

Definition session_close (sid : nat) : M unit :=
  fun w =>
    (Ok tt, upd_sessions (remove_one sid (w_sessions w)) (w_next_session w) w).

(* ================================================================= *)
(** ** The program *)

Definition SSH_KEYS_DIR : path := ["ssh_keys"].
Definition SSH_KEY_NAME_PREFIX : string := "one_click_kag_server".
Definition FILES_TO_UPLOAD : list path :=
  [ ["droplet_setup.sh"]; ["docker-compose.yaml"]; ["Dockerfile.kag"] ].

(** [Path.name] *)
Definition path_name (p : path) : path :=
  match rev p with
  | [] => []
  | x :: _ => [x]
  end.

Inductive command : Type := Up | Down | KagLogs | RestartKag | Ssh | Rcon.

Section Program.

Variable env : Env.

(** *** Calls that leave the process *)

(** Record the call; the clock moves by the time the call takes. *)
Definition log (e : event) : M unit :=
  fun w => (Ok tt, upd_trace e (Z.of_nat (env_duration env (w_trace w) e)) w).

(** A call whose outcome the outside decides. *)
Definition external {A} (e : event) (answer : list event -> exn + A) : M A :=
  log e ;;
  r <- read (fun w => answer (w_trace w)) ;;
  lift r.

(** [time.sleep(seconds)] *)
Definition sleep (seconds : Z) : M unit :=
  fun w => (Ok tt, upd_trace (EvSleep seconds) (seconds * 1000) w).

(** *** The local file system *)

Definition os_path_exists (p : path) : M bool :=
  read (fun w => match lookup (w_local w) p with Some _ => true | None => false end).

Definition os_path_isdir (p : path) : M bool :=
  read (fun w => match lookup (w_local w) p with Some (Dir _) => true | _ => false end).

Definition os_path_isfile (p : path) : M bool :=
  read (fun w => match lookup (w_local w) p with Some (File _) => true | _ => false end).

Definition os_listdir (p : path) : M (list string) :=
  r <- read (fun w => fs_listdir (w_local w) p) ;;
  es <- lift r ;;
  ret (names es).

Definition os_mkdir (p : path) : M unit :=
  update_local (fun fs => fs_mkdir fs p).

(** [os.makedirs(p, exist_ok=True)] *)
Definition os_makedirs (p : path) : M unit :=
  update_local (fun fs => fs_makedirs fs p).

(** [with open(p, "w") as fh: fh.write(data)] *)
Definition write_file (p : path) (data : string) : M unit :=
  update_local (fun fs => fs_write fs p data).

(** [with open(p, "r") as fh: fh.read()] *)
Definition read_file (p : path) : M string :=
  r <- read (fun w => fs_read (w_local w) p) ;;
  lift r.

(** [shutil.copyfile(src, dst)] *)
Definition copyfile (src dst : path) : M unit :=
  data <- read_file src ;; write_file dst data.

(** [with tempfile.TemporaryDirectory() as tmp_dir: body]. The directory
    is an entry of the local tree under a name the outside picks; it is
    removed with all it holds when the block is left, also by an exception. *)
Definition with_tempdir {A} (body : path -> M A) : M A :=
  name <- read (fun w => env_tmpname env (w_trace w)) ;;
  os_mkdir [name] ;;
  try_finally (body [name])
    (update_local (fun fs => inr (remove_node fs [name]))).

(** *** paramiko: SSH sessions and the SFTP primitives *)

Definition ssh_connect (ip : string) : M nat :=
  external (EvConnect ip) (fun tr => env_connect env tr ip) ;;
  session_open.

(** [ssh.close()] *)
Definition ssh_close (sid : nat) : M unit :=
  log (EvClose sid) ;;
  session_close sid.

(** [(_, stdout, _) = ssh.exec_command(cmd)], the lines of [stdout] read to
    the end, and [stdout.channel.recv_exit_status()]. *)
Definition ssh_exec (sid : nat) (cmd : string) : M (list string * Z) :=
  external (EvExec sid cmd) (fun tr => env_exec env tr cmd).

(** [ssh.open_sftp()] and [MySFTPClient.from_transport(ssh.get_transport())] *)
Definition open_sftp (sid : nat) : M nat := log (EvSftpOpen sid) ;; ret sid.

Definition sftp_close (sftp : nat) : M unit := log (EvSftpClose sftp).

(** [SFTPClient.put(localpath, remotepath)] *)
Definition sftp_put (localpath remotepath : path) : M unit :=
  data <- read_file localpath ;;
  log (EvSftpPut remotepath) ;;
  update_remote (fun fs => fs_write fs remotepath data).

(** [SFTPClient.get(remotepath, localpath)]: the local file is opened for
    writing before the remote one is read. *)
Definition sftp_get (remotepath localpath : path) : M unit :=
  write_file localpath "" ;;
  log (EvSftpGet remotepath) ;;
  r <- read (fun w => fs_read (w_remote w) remotepath) ;;
  data <- lift r ;;
  write_file localpath data.

(** [SFTPClient.mkdir(path, mode)] *)
Definition sftp_mkdir (p : path) : M unit :=
  log (EvSftpMkdir p) ;;
  update_remote (fun fs => fs_mkdir fs p).

(** [SFTPClient.listdir_attr(path)]: each entry with its name and mode. *)
Definition sftp_listdir_attr (p : path) : M (list (string * node)) :=
  log (EvSftpListdir p) ;;
  r <- read (fun w => fs_listdir (w_remote w) p) ;;
  lift r.

(** *** sftp.py: class MySFTPClient *)

(** [MySFTPClient.mkdir(path, mode, ignore_existing)], over the [mkdir] of
    the class it extends. *)
Definition mkdir_over (super_mkdir : path -> M unit) (p : path)
  (ignore_existing : bool) : M unit :=
  try_except (super_mkdir p) is_IOError
    (fun e => if ignore_existing then ret tt else raise e).

Definition mkdir (p : path) (ignore_existing : bool) : M unit :=
  mkdir_over sftp_mkdir p ignore_existing.

(** [MySFTPClient.put_dir(source, target)]. The walk never writes the local
    tree, so the listing of each directory it enters is the one of [n], the
    node found at [source] when the call starts; the recursion is on [n].
    ['%s/%s' % (target, item)] is [target] extended by one component. *)
Fixpoint put_dir_from (n : node) (source target : path) : M unit :=
  _ <- os_listdir source ;;
  match n with
  | File _ => ret tt
  | Dir es =>
      for_each
        (fun '(item, child) =>
           isfile <- os_path_isfile (source ++ [item]) ;;
           if (isfile : bool)
           then sftp_put (source ++ [item]) (target ++ [item])
           else
             mkdir (target ++ [item]) true ;;
             put_dir_from child (source ++ [item]) (target ++ [item]))
        es
  end.

Definition put_dir (source target : path) : M unit :=
  n <- read (fun w => match lookup (w_local w) source with
                      | Some n => n
                      | None => Dir []
                      end) ;;
  put_dir_from n source target.

(** [MySFTPClient.get_recursive(path, dest)]. The walk never writes the
    remote tree; [n] is the node found at [path] when the call starts.
    [dest + "/" + item.filename] is [dest] extended by one component: the
    name of a listing is taken as a single component, which it is unless
    it holds a slash or is "." or "..". *)
Fixpoint get_recursive_from (n : node) (path dest : path) : M unit :=
  _ <- sftp_listdir_attr path ;;
  isdir <- os_path_isdir dest ;;
  (if (isdir : bool) then ret tt else os_makedirs dest) ;;
  match n with
  | File _ => ret tt
  | Dir item_list =>
      for_each
        (fun '(filename, item) =>
           if is_dir item
           then get_recursive_from item (path ++ [filename]) (dest ++ [filename])
           else sftp_get (path ++ [filename]) (dest ++ [filename]))
        item_list
  end.

Definition get_recursive (path dest : path) : M unit :=
  n <- read (fun w => match lookup (w_remote w) path with
                      | Some n => n
                      | None => Dir []
                      end) ;;
  get_recursive_from n path dest.

(** *** tenacity: [@retry(wait=wait_fixed(w), stop=stop_after_delay(d))] *)

(** After a failed attempt the loop stops when the time since the first
    attempt started has reached the delay, and raises [RetryError] with the
    number of the last attempt; otherwise it sleeps and tries again. The
    wait and the delay are in seconds, the clock is in milliseconds. *)
Fixpoint retry_loop {A} (fuel : nat) (wait_fixed stop_after_delay : Z)
  (start_time : Z) (attempt_number : nat) (fn : M A) : M A :=
  match fuel with
  | O => fun w => (OutOfFuel, w)
  | S fuel' =>
      fun w =>
        match fn w with
        | (Ok a, w1) => (Ok a, w1)
        | (OutOfFuel, w1) => (OutOfFuel, w1)
        | (Raise e, w1) =>
            if (stop_after_delay * 1000 <=? w_clock w1 - start_time)%Z
            then (Raise (RetryError attempt_number e), w1)
            else
              (sleep wait_fixed ;;
               retry_loop fuel' wait_fixed stop_after_delay start_time
                 (S attempt_number) fn) w1
        end
  end.

Definition retry {A} (wait_fixed stop_after_delay : Z) (fuel : nat) (fn : M A)
  : M A :=
  start_time <- read w_clock ;;
  retry_loop fuel wait_fixed stop_after_delay start_time 1 fn.

(** *** main.py *)

(** [State.save(path)] *)
Definition State_save : M unit :=
  log EvSaveState ;;
  write_state_file.

(** [state = State.load(path)] *)
Definition State_load : M unit :=
  saved <- read w_state_file ;;
  modify_state
    (fun _ => match saved with Some s => s | None => State_init end).

(** [state.droplet], for an attribute access or a method call on it. *)
Definition the_droplet : M Droplet :=
  st <- get_state ;;
  match droplet st with
  | Some d => ret d
  | None => raise (AttributeError "'NoneType' object has no attribute")
  end.

(** [state.droplet.load()]: the object is refreshed in place. *)
Definition droplet_load : M unit :=
  d <- the_droplet ;;
  d' <- external EvDropletLoad (fun tr => env_droplet_load env tr d) ;;
  modify_state (set_droplet (Some d')).

(** [config["secrets"]["digitalocean_key"]] *)
Definition digitalocean_key (config : pyval) : M pyval :=
  secrets <- lift (py_getitem config "secrets") ;;
  lift (py_getitem secrets "digitalocean_key").

Definition create_droplet (config : pyval) : M unit :=
  st <- get_state ;;
  raise_if (match ssh_key_name st with None | Some "" => true | Some _ => false end)
    (RuntimeError "No ssh key configured yet") ;;
  _ <- digitalocean_key config ;;
  keys <- external EvGetAllSSHKeys (env_all_sshkeys env) ;;
  let keys_to_use :=
    filter (fun key => match ssh_key_name st with
                        | Some name => String.eqb key name
                        | None => false
                        end) keys in
  _ <- digitalocean_key config ;;
  shape <- lift (py_getitem config "droplet") ;;
  kwargs <- match shape with
            | PyDict d => ret d
            | _ => raise (TypeError "argument after ** must be a mapping")
            end ;;
  d <- external EvDropletCreate
         (fun tr => env_droplet_create env tr kwargs keys_to_use) ;;
  modify_state (set_droplet (Some d)).

(** Every file that can be read is taken for a valid private key. *)
Definition open_ssh_connection : M nat :=
  st <- get_state ;;
  name <- match ssh_key_name st with
          | Some n => ret n
          | None => raise (TypeError "unsupported operand type(s) for /")
          end ;;
  _ <- read_file (SSH_KEYS_DIR ++ [name]) ;;
  d <- the_droplet ;;
  ssh_connect (ip_address d).

(** The function under the [@retry] decorator. *)
Definition wait_for_droplet_to_be_active_once : M unit :=
  droplet_load ;;
  d <- the_droplet ;;
  raise_if (negb (String.eqb (status d) "active"))
    (ValueError "Droplet is not active yet") ;;
  ssh <- open_ssh_connection ;;
  _ <- ssh_exec ssh "echo hello world" ;;
  ret tt.

Definition wait_for_droplet_to_be_active (fuel : nat) : M unit :=
  retry 5 120 fuel wait_for_droplet_to_be_active_once.

(** [check_config(config)]. [Path(f"Mods/{mod}")] is looked up component
    by component, as it is written: that is what the file system finds
    for a name with no component "." or ".."; a name with one is not
    resolved here. *)
Definition check_config (config : pyval) : M unit :=
  secrets <- lift (py_get config "secrets" (PyDict [])) ;;
  key <- lift (py_get secrets "digitalocean_key" PyNone) ;;
  raise_if (negb (py_truthy key))
    (ValueError "Config is missing secrets.digitalocean_key") ;;
  kag <- lift (py_get config "kag" (PyDict [])) ;;
  mods <- lift (py_get kag "mods" PyNone) ;;
  items <- lift (py_iter mods) ;;
  for_each
    (fun mod_ =>
       isdir <- os_path_isdir ("Mods" :: parse_path (env_str env mod_)) ;;
       raise_if (negb isdir)
         (ValueError "Mod is listed in config but was not found in the Mods/ directory."))
    items.

(** [str(uuid.uuid4()).split("-")[0]] *)
Definition get_unique_id : M string :=
  read (fun w => env_uuid env (w_trace w)).

Definition create_ssh_keypair : M (string * string) :=
  log EvCreateKeypair ;;
  read (fun w => env_keypair env (w_trace w)).

Definition configure_ssh_key (config : pyval) : M unit :=
  exists_ <- os_path_exists SSH_KEYS_DIR ;;
  (if (exists_ : bool) then ret tt else os_mkdir SSH_KEYS_DIR) ;;
  uid <- get_unique_id ;;
  let name := (SSH_KEY_NAME_PREFIX ++ "_" ++ uid)%string in
  modify_state (set_ssh_key_name (Some name)) ;;
  '(prv_key, pub_key) <- create_ssh_keypair ;;
  write_file (SSH_KEYS_DIR ++ [name]) prv_key ;;
  write_file (SSH_KEYS_DIR ++ [(name ++ ".pub")%string]) pub_key ;;
  _ <- digitalocean_key config ;;
  external (EvSSHKeyCreate name) (env_sshkey_create env) ;;
  modify_state (set_ssh_key_uploaded true).

Definition setup_droplet (config : pyval) : M unit :=
  st <- get_state ;;
  raise_if (match droplet st with
            | None => true
            | Some d => negb (String.eqb (status d) "active")
            end)
    (RuntimeError "Droplet isn't active yet") ;;
  ssh <- open_ssh_connection ;;
  sftp <- open_sftp ssh ;;
  for_each (fun p => sftp_put p (path_name p)) FILES_TO_UPLOAD ;;
  _ <- ssh_exec ssh "chmod +x droplet_setup.sh" ;;
  '(_, status) <- ssh_exec ssh "./droplet_setup.sh 2>&1" ;;
  sftp_close sftp ;;
  ssh_close ssh ;;
  raise_if (negb (Z.eqb status 0)) (RuntimeError "Droplet setup failed") ;;
  modify_state (set_done_droplet_setup true).

(** The lines [f"{key} = {value}\n"] of autoconfig.cfg. *)
Definition autoconfig_text (items : list (string * pyval)) : string :=
  String.concat ""
    (map (fun kv => (fst kv ++ " = " ++ env_str env (snd kv) ++ String "010" "")%string)
       items).

(** The lines [f"{mod}\n"] of mods.cfg. *)
Definition mods_text (mods : list pyval) : string :=
  String.concat "" (map (fun m => (env_str env m ++ String "010" "")%string) mods).

(** A security template with [$USERS] replaced by the joined user names. *)
Definition security_file (config : pyval) (tier file : string)
  (tmp_security_dir : path) : M unit :=
  template <- read_file ["Security"; file] ;;
  kag <- lift (py_getitem config "kag") ;;
  security <- lift (py_getitem kag "security") ;;
  users <- lift (py_getitem security tier) ;;
  joined <- lift (py_join "; " users) ;;
  write_file (tmp_security_dir ++ [file]) (str_replace "$USERS" joined template).

Definition setup_kag (config : pyval) : M unit :=
  ssh <- open_ssh_connection ;;
  sftp <- open_sftp ssh ;;
  sftp_put ["docker-compose.yaml"] ["docker-compose.yaml"] ;;
  mkdir ["Mods"] true ;;
  put_dir ["Mods"] ["Mods"] ;;
  mkdir ["Cache"] true ;;
  put_dir ["Cache"] ["Cache"] ;;
  with_tempdir
    (fun tmp_dir =>
       write_file (tmp_dir ++ ["autoconfig.cfg"]) "" ;;
       kag <- lift (py_getitem config "kag") ;;
       autoconfig <- lift (py_getitem kag "autoconfig") ;;
       items <- lift (py_items autoconfig) ;;
       write_file (tmp_dir ++ ["autoconfig.cfg"]) (autoconfig_text items) ;;
       write_file (tmp_dir ++ ["mods.cfg"]) "" ;;
       kag <- lift (py_getitem config "kag") ;;
       mods <- lift (py_getitem kag "mods") ;;
       mods <- lift (py_iter mods) ;;
       write_file (tmp_dir ++ ["mods.cfg"]) (mods_text mods) ;;
       let tmp_security_dir := tmp_dir ++ ["Security"] in
       os_mkdir tmp_security_dir ;;
       copyfile ["Security"; "seclevs.cfg"] (tmp_security_dir ++ ["seclevs.cfg"]) ;;
       copyfile ["Security"; "normal.cfg"] (tmp_security_dir ++ ["normal.cfg"]) ;;
       security_file config "superadmins" "superadmin.cfg" tmp_security_dir ;;
       security_file config "admins" "admin.cfg" tmp_security_dir ;;
       sftp_put (tmp_dir ++ ["autoconfig.cfg"]) ["autoconfig.cfg"] ;;
       sftp_put (tmp_dir ++ ["mods.cfg"]) ["mods.cfg"] ;;
       mkdir ["Security"] true ;;
       put_dir tmp_security_dir ["Security"]) ;;
  _ <- ssh_exec ssh "docker-compose down 2>&1" ;;
  '(_, status) <- ssh_exec ssh "docker-compose up -d 2>&1" ;;
  raise_if (negb (Z.eqb status 0)) (RuntimeError "Failed to setup KAG") ;;
  ssh_close ssh ;;
  modify_state (set_done_kag_setup true).

Definition follow_kag_logs : M unit :=
  ssh <- open_ssh_connection ;;
  _ <- ssh_exec ssh "docker-compose logs -f kag 2>&1" ;;
  ret tt.

Definition run_command_up (fuel : nat) (config : pyval) : M unit :=
  st <- get_state ;;
  (if ssh_key_uploaded st then ret tt else configure_ssh_key config) ;;
  st <- get_state ;;
  match droplet st with
  | Some _ => ret tt
  | None =>
      create_droplet config ;;
      wait_for_droplet_to_be_active fuel
  end ;;
  droplet_load ;;
  st <- get_state ;;
  (if done_droplet_setup st then ret tt else setup_droplet config) ;;
  st <- get_state ;;
  (if done_kag_setup st then ret tt else setup_kag config).

Definition run_command_down (config : pyval) : M unit :=
  ssh <- open_ssh_connection ;;
  sftp <- open_sftp ssh ;;
  get_recursive ["Cache"] ["Cache"] ;;
  _ <- the_droplet ;;
  external EvDropletDestroy (env_droplet_destroy env).

Definition exec_ssh : M unit :=
  st <- get_state ;;
  _ <- match ssh_key_name st with
       | Some n => ret n
       | None => raise (TypeError "unsupported operand type(s) for /")
       end ;;
  _ <- the_droplet ;;
  code <- external EvSubprocess (env_subprocess env) ;;
  raise_if (negb (Z.eqb code 0)) (CalledProcessError code).

(** [v != 1] is false for [1] and for [True]. *)
Definition py_is_one (v : pyval) : bool :=
  match v with
  | PyInt z => Z.eqb z 1
  | PyBool b => b
  | _ => false
  end.

Definition run_command_rcon (config : pyval) : M unit :=
  kag <- lift (py_getitem config "kag") ;;
  autoconfig <- lift (py_getitem kag "autoconfig") ;;
  sv_tcpr <- lift (py_get autoconfig "sv_tcpr" PyNone) ;;
  raise_if (negb (py_is_one sv_tcpr))
    (RuntimeError "sv_tcpr is not set in autoconfig. Set it to 1 to use RCON.") ;;
  kag <- lift (py_getitem config "kag") ;;
  autoconfig <- lift (py_getitem kag "autoconfig") ;;
  password <- lift (py_get autoconfig "sv_rconpassword" PyNone) ;;
  raise_if (negb (py_truthy password))
    (RuntimeError "sv_rconpassword is not set in autoconfig. Set it to use RCON.") ;;
  d <- the_droplet ;;
  kag <- lift (py_getitem config "kag") ;;
  autoconfig <- lift (py_getitem kag "autoconfig") ;;
  rcon_password <- lift (py_getitem autoconfig "sv_rconpassword") ;;
  with_tempdir
    (fun tmp_dir =>
       write_file (tmp_dir ++ ["config.toml"])
         (env_toml env (ip_address d) (env_str env rcon_password)) ;;
       external EvWebInterface (env_webinterface env)).

(** The [try] block of [main]; [args.command] is one of argparse's choices,
    so the final [else] is never reached. *)
Definition run_command (fuel : nat) (cmd : command) (config : pyval) : M unit :=
  match cmd with
  | Up => run_command_up fuel config ;; _ <- the_droplet ;; ret tt
  | Down => run_command_down config ;; modify_state (fun _ => State_init)
  | RestartKag => setup_kag config
  | KagLogs => follow_kag_logs
  | Ssh => exec_ssh
  | Rcon => run_command_rcon config
  end.

(** [main()], from the parsed arguments on. *)
Definition main (fuel : nat) (cmd : command) : M unit :=
  config_file <- read w_config_file ;;
  match config_file with
  | None => raise (RuntimeError "Config file does not exist")
  | Some config =>
      State_load ;;
      modify_state (set_done_kag_setup false) ;;
      check_config config ;;
      try_finally (run_command fuel cmd config) (log EvChdir ;; State_save)
  end.

End Program.

(* ================================================================= *)
(** ** Vocabulary of the statements *)

(** The world an invocation of [main] hands to the command: the state is
    loaded from the state file and [done_kag_setup] is reset. *)
Definition loaded (w : World) : World :=
  upd_state
    (fun _ =>
       set_done_kag_setup false
         (match w_state_file w with Some s => s | None => State_init end))
    w.

(** [config["kag"]["mods"]], when the document has the key. *)
Definition kag_mods (config : pyval) : option pyval :=
  match config with
  | PyDict d =>
      match find_field "kag" d with
      | Some (PyDict k) => find_field "mods" k
      | _ => None
      end
  | _ => None
  end.




(** An action that raises from every world. *)
Definition always_fails {A} (fn : M A) : Prop :=
  forall w, exists e w', fn w = (Raise e, w').

(** An action during which the clock does not run backwards. *)
Definition clock_monotone {A} (fn : M A) : Prop :=
  forall w, (w_clock w <= w_clock (snd (fn w)))%Z.

(** What an action may do: which fields of the state object it may
    assign, which parts of the world it may write, whether it may run out
    of fuel, and which calls it may make. *)
Record footprint : Type := {
  fp_key_name : bool;
  fp_key_uploaded : bool;
  fp_droplet : bool;
  fp_host_done : bool;
  fp_app_done : bool;
  fp_state_file : bool;
  fp_local : bool;
  fp_remote : bool;
  fp_sessions : bool;
  fp_fuel : bool;
  fp_calls : event -> bool
}.

(** [w'] differs from [w] by no more than [fp] allows; the log only grows
    and the clock does not run backwards. *)
Definition changes (fp : footprint) (w w' : World) : Prop :=
  (fp_key_name fp = false ->
   ssh_key_name (w_state w') = ssh_key_name (w_state w)) /\
  (fp_key_uploaded fp = false ->
   ssh_key_uploaded (w_state w') = ssh_key_uploaded (w_state w)) /\
  (fp_droplet fp = false -> droplet (w_state w') = droplet (w_state w)) /\
  (fp_host_done fp = false ->
   done_droplet_setup (w_state w') = done_droplet_setup (w_state w)) /\
  (fp_app_done fp = false ->
   done_kag_setup (w_state w') = done_kag_setup (w_state w)) /\
  (fp_state_file fp = false -> w_state_file w' = w_state_file w) /\
  (fp_local fp = false -> w_local w' = w_local w) /\
  (fp_remote fp = false -> w_remote w' = w_remote w) /\
  (fp_sessions fp = false ->
   w_sessions w' = w_sessions w /\ w_next_session w' = w_next_session w) /\
  (exists l, w_trace w' = w_trace w ++ l /\ forallb (fp_calls fp) l = true) /\
  (w_clock w <= w_clock w')%Z /\
  w_config_file w' = w_config_file w.

Definition within (fp : footprint) {A} (m : M A) : Prop :=
  forall w,
    (fp_fuel fp = false -> fst (m w) <> OutOfFuel) /\
    changes fp w (snd (m w)).

(** A wider footprint allows what a narrower one does. *)
Definition fp_le (a b : footprint) : Prop :=
  (fp_key_name a = true -> fp_key_name b = true) /\
  (fp_key_uploaded a = true -> fp_key_uploaded b = true) /\
  (fp_droplet a = true -> fp_droplet b = true) /\
  (fp_host_done a = true -> fp_host_done b = true) /\
  (fp_app_done a = true -> fp_app_done b = true) /\
  (fp_state_file a = true -> fp_state_file b = true) /\
  (fp_local a = true -> fp_local b = true) /\
  (fp_remote a = true -> fp_remote b = true) /\
  (fp_sessions a = true -> fp_sessions b = true) /\
  (fp_fuel a = true -> fp_fuel b = true) /\
  (forall e, fp_calls a e = true -> fp_calls b e = true).

(** [m] raises from every world, within [fp]. *)
Definition fails_within (fp : footprint) {A} (m : M A) : Prop :=
  forall w, (exists e, fst (m w) = Raise e) /\ changes fp w (snd (m w)).

(** Anything but the state object, the state file and running out of fuel,
    with calls in [calls]. *)
Definition fp_io (calls : event -> bool) : footprint :=
  {| fp_key_name := false; fp_key_uploaded := false; fp_droplet := false;
     fp_host_done := false; fp_app_done := false; fp_state_file := false;
     fp_local := true; fp_remote := true; fp_sessions := true;
     fp_fuel := false; fp_calls := calls |}.

(** As [fp_io]; the droplet object may be refreshed and [done_kag_setup]
    may be set. *)
Definition fp_app (calls : event -> bool) : footprint :=
  {| fp_key_name := false; fp_key_uploaded := false; fp_droplet := true;
     fp_host_done := false; fp_app_done := true; fp_state_file := false;
     fp_local := true; fp_remote := true; fp_sessions := true;
     fp_fuel := false; fp_calls := calls |}.

(** Anything but the sessions, the flags of the state object and the
    state file. *)
Definition fp_no_session (calls : event -> bool) : footprint :=
  {| fp_key_name := false; fp_key_uploaded := false; fp_droplet := true;
     fp_host_done := false; fp_app_done := false; fp_state_file := false;
     fp_local := true; fp_remote := true; fp_sessions := false;
     fp_fuel := false; fp_calls := calls |}.

(** The key fields of the state object and the local tree. *)
Definition fp_key (calls : event -> bool) : footprint :=
  {| fp_key_name := true; fp_key_uploaded := true; fp_droplet := false;
     fp_host_done := false; fp_app_done := false; fp_state_file := false;
     fp_local := true; fp_remote := false; fp_sessions := false;
     fp_fuel := false; fp_calls := calls |}.

(** Anything but the state file and running out of fuel. *)
Definition fp_up (calls : event -> bool) : footprint :=
  {| fp_key_name := true; fp_key_uploaded := true; fp_droplet := true;
     fp_host_done := true; fp_app_done := true; fp_state_file := false;
     fp_local := true; fp_remote := true; fp_sessions := true;
     fp_fuel := false; fp_calls := calls |}.

(** Anything but running out of fuel. *)
Definition fp_all (calls : event -> bool) : footprint :=
  {| fp_key_name := true; fp_key_uploaded := true; fp_droplet := true;
     fp_host_done := true; fp_app_done := true; fp_state_file := true;
     fp_local := true; fp_remote := true; fp_sessions := true;
     fp_fuel := false; fp_calls := calls |}.

Definition any_call (e : event) : bool := true.

(** Creating the droplet and waiting for it: the droplet handle, but no
    flag; the wait may run out of fuel. *)
Definition fp_instance : footprint :=
  {| fp_key_name := false; fp_key_uploaded := false; fp_droplet := true;
     fp_host_done := false; fp_app_done := false; fp_state_file := false;
     fp_local := true; fp_remote := true; fp_sessions := true;
     fp_fuel := true; fp_calls := any_call |}.


(** The two setups: their flags, but neither the key nor the handle. *)
Definition fp_setups : footprint :=
  {| fp_key_name := false; fp_key_uploaded := false; fp_droplet := false;
     fp_host_done := true; fp_app_done := true; fp_state_file := false;
     fp_local := true; fp_remote := true; fp_sessions := true;
     fp_fuel := false; fp_calls := any_call |}.


(** Steps (a) and (b) of [run_command_up]: a key pair generated, a public
    key registered, a droplet created. *)
Definition creation_call (e : event) : bool :=
  match e with
  | EvCreateKeypair | EvSSHKeyCreate _ | EvGetAllSSHKeys | EvDropletCreate => true
  | _ => false
  end.

(** Step (c): the probe command of [wait_for_droplet_to_be_active] and the
    sleep between two attempts. *)
Definition probe_call (e : event) : bool :=
  match e with
  | EvExec _ cmd => String.eqb cmd "echo hello world"
  | EvSleep _ => true
  | _ => false
  end.

(** Step (d): the commands of [setup_droplet]. *)
Definition host_setup_call (e : event) : bool :=
  match e with
  | EvExec _ cmd =>
      String.eqb cmd "chmod +x droplet_setup.sh" ||
      String.eqb cmd "./droplet_setup.sh 2>&1"
  | _ => false
  end.

(** A call of one of the steps (a) to (d). *)
Definition step_abcd_call (e : event) : bool :=
  creation_call e || probe_call e || host_setup_call e.

Definition is_destroy (e : event) : bool :=
  match e with EvDropletDestroy => true | _ => false end.

Definition no_abcd_call (e : event) : bool := negb (step_abcd_call e).


Definition no_destroy (e : event) : bool := negb (is_destroy e).




(** [cmd], whenever it is run, ends with a non-zero exit status. *)
Definition exits_nonzero (env : Env) (cmd : string) : Prop :=
  forall tr, exists out st, env_exec env tr cmd = inr (out, st) /\ st <> 0%Z.

(** *** A sample environment and sample worlds *)

Definition sample_droplet : Droplet :=
  {| droplet_id := 1; ip_address := "203.0.113.7"; status := "active" |}.

(** Every call succeeds at once; every command exits with status 0. *)
Definition sample_env : Env :=
  {| env_uuid := fun _ => "0a1b2c3d";
     env_keypair := fun _ => ("PRIVATE KEY", "PUBLIC KEY");
     env_sshkey_create := fun _ => inr tt;
     env_all_sshkeys := fun _ => inr ["one_click_kag_server_0a1b2c3d"; "laptop"];
     env_droplet_create := fun _ _ _ =>
       inr {| droplet_id := 1; ip_address := ""; status := "new" |};
     env_droplet_load := fun _ d =>
       inr {| droplet_id := droplet_id d; ip_address := "203.0.113.7";
              status := "active" |};
     env_droplet_destroy := fun _ => inr tt;
     env_connect := fun _ _ => inr tt;
     env_exec := fun _ _ => inr ([], 0%Z);
     env_subprocess := fun _ => inr 0%Z;
     env_webinterface := fun _ => inr tt;
     env_tmpname := fun _ => "tmp0";
     env_str := fun v => match v with PyStr s => s | _ => "?" end;
     env_toml := fun host password => (host ++ " " ++ password)%string;
     env_duration := fun _ _ => 0 |}.

(** [e] with other answers to remote commands, other droplet statuses and
    other durations of calls. *)
Definition env_with (exec : list event -> string -> exn + (list string * Z))
  (load : list event -> Droplet -> exn + Droplet)
  (duration : list event -> event -> nat) (e : Env) : Env :=
  {| env_uuid := env_uuid e; env_keypair := env_keypair e;
     env_sshkey_create := env_sshkey_create e;
     env_all_sshkeys := env_all_sshkeys e;
     env_droplet_create := env_droplet_create e;
     env_droplet_load := load;
     env_droplet_destroy := env_droplet_destroy e;
     env_connect := env_connect e;
     env_exec := exec;
     env_subprocess := env_subprocess e;
     env_webinterface := env_webinterface e;
     env_tmpname := env_tmpname e;
     env_str := env_str e;
     env_toml := env_toml e;
     env_duration := duration |}.

(** The droplet never leaves the status "new"; each call takes 100 ms. *)
Definition never_active_env : Env :=
  env_with (env_exec sample_env)
    (fun _ d => inr {| droplet_id := droplet_id d; ip_address := "203.0.113.7";
                       status := "new" |})
    (fun _ _ => 100) sample_env.

(** The restart command of [setup_kag] and the setup script exit with 1. *)
Definition failing_exec_env : Env :=
  env_with
    (fun _ cmd =>
       if String.eqb cmd "docker-compose up -d 2>&1" ||
          String.eqb cmd "./droplet_setup.sh 2>&1"
       then inr (["error"], 1%Z) else inr ([], 0%Z))
    (env_droplet_load sample_env) (env_duration sample_env) sample_env.

(** Only the restart command of [setup_kag] exits with 1. *)
Definition failing_restart_env : Env :=
  env_with
    (fun _ cmd =>
       if String.eqb cmd "docker-compose up -d 2>&1"
       then inr (["error"], 1%Z) else inr ([], 0%Z))
    (env_droplet_load sample_env) (env_duration sample_env) sample_env.

Definition sample_config : pyval :=
  PyDict
    [ ("secrets", PyDict [("digitalocean_key", PyStr "token")]);
      ("droplet", PyDict [("name", PyStr "kag"); ("region", PyStr "lon1")]);
      ("kag",
       PyDict
         [ ("autoconfig", PyDict [("sv_name", PyStr "KAG"); ("sv_tcpr", PyInt 1)]);
           ("mods", PyList [PyStr "ModA"]);
           ("security",
            PyDict [ ("superadmins", PyList [PyStr "alice"]);
                     ("admins", PyList [PyStr "bob"; PyStr "carol"]) ]) ]) ].

(** A configuration with the provider credential and without [kag.mods]. *)
Definition config_without_mods : pyval :=
  PyDict
    [ ("secrets", PyDict [("digitalocean_key", PyStr "token")]);
      ("kag", PyDict [("autoconfig", PyDict [])]) ].

Definition sample_local : node :=
  Dir
    [ ("droplet_setup.sh", File "#!/bin/sh");
      ("docker-compose.yaml", File "services:");
      ("Dockerfile.kag", File "FROM debian");
      ("ssh_keys", Dir [("one_click_kag_server_0a1b2c3d", File "PRIVATE KEY")]);
      ("Mods", Dir [("ModA", Dir [("rules.cfg", File "gamemode"); ("Maps", Dir [])])]);
      ("Cache", Dir [("players.cfg", File "none")]);
      ("Security",
       Dir [ ("seclevs.cfg", File "levels"); ("normal.cfg", File "normal");
             ("superadmin.cfg", File "users = $USERS;");
             ("admin.cfg", File "users = $USERS;") ]) ].

Definition world_of (st : State) (local remote : node) : World :=
  {| w_state := st; w_state_file := Some st; w_config_file := Some sample_config;
     w_local := local; w_remote := remote; w_trace := []; w_clock := 0;
     w_sessions := []; w_next_session := 0 |}.

(** Nothing done yet. *)
Definition fresh_world : World := world_of State_init sample_local (Dir []).

(** Key uploaded, droplet created, host setup done. *)
Definition provisioned_state : State :=
  {| ssh_key_name := Some "one_click_kag_server_0a1b2c3d";
     ssh_key_uploaded := true; droplet := Some sample_droplet;
     done_droplet_setup := true; done_kag_setup := false |}.

Definition provisioned_world : World :=
  world_of provisioned_state sample_local (Dir []).

(** Key uploaded and droplet created by an earlier run that stopped before
    the host setup. *)
Definition resumed_state : State :=
  {| ssh_key_name := Some "one_click_kag_server_0a1b2c3d";
     ssh_key_uploaded := true; droplet := Some sample_droplet;
     done_droplet_setup := false; done_kag_setup := false |}.

Definition resumed_world : World := world_of resumed_state sample_local (Dir []).

(** The server has run for a while: the remote cache has changed. *)
Definition running_world : World :=
  world_of provisioned_state sample_local
    (Dir [("Cache", Dir [("players.cfg", File "alice"); ("maps", Dir [])])]).



(** The key is uploaded and no droplet has been created yet. *)
Definition keyed_state : State :=
  {| ssh_key_name := Some "one_click_kag_server_0a1b2c3d";
     ssh_key_uploaded := true; droplet := None;
     done_droplet_setup := false; done_kag_setup := false |}.

Definition keyed_world : World := world_of keyed_state sample_local (Dir []).

(* ================================================================= *)
(** ** Vocabulary of the further statements *)

(** Step (a): a key pair generated, a public key registered. *)
Definition key_call (e : event) : bool :=
  match e with
  | EvCreateKeypair | EvSSHKeyCreate _ => true
  | _ => false
  end.

(** Steps (b) and (c): the registered keys listed, a droplet created, the
    probe and the sleep of the wait. *)
Definition instance_call (e : event) : bool :=
  match e with
  | EvGetAllSSHKeys | EvDropletCreate => true
  | _ => probe_call e
  end.

Definition no_key_call (e : event) : bool := negb (key_call e).
Definition no_instance_call (e : event) : bool := negb (instance_call e).
Definition no_host_setup_call (e : event) : bool := negb (host_setup_call e).

(** Anything but the state file. *)
Definition fp_any (calls : event -> bool) : footprint :=
  {| fp_key_name := true; fp_key_uploaded := true; fp_droplet := true;
     fp_host_done := true; fp_app_done := true; fp_state_file := false;
     fp_local := true; fp_remote := true; fp_sessions := true;
     fp_fuel := true; fp_calls := calls |}.

(** The steps (a) to (c): the key, the handle, but no setup flag. *)
Definition fp_abc (calls : event -> bool) : footprint :=
  {| fp_key_name := true; fp_key_uploaded := true; fp_droplet := true;
     fp_host_done := false; fp_app_done := false; fp_state_file := false;
     fp_local := true; fp_remote := true; fp_sessions := true;
     fp_fuel := true; fp_calls := calls |}.

(** The key pair of [configure_ssh_key] before its upload: the name of
    the key and the local tree. *)
Definition fp_key_name_only : footprint :=
  {| fp_key_name := true; fp_key_uploaded := false; fp_droplet := false;
     fp_host_done := false; fp_app_done := false; fp_state_file := false;
     fp_local := true; fp_remote := false; fp_sessions := false;
     fp_fuel := false; fp_calls := any_call |}.

(** Calls and reads only: no part of the world is written. *)
Definition fp_calls_only : footprint :=
  {| fp_key_name := false; fp_key_uploaded := false; fp_droplet := false;
     fp_host_done := false; fp_app_done := false; fp_state_file := false;
     fp_local := false; fp_remote := false; fp_sessions := false;
     fp_fuel := false; fp_calls := any_call |}.

(** Whenever [m] raises, it has changed no more than [fp] allows. *)
Definition raises_within (fp : footprint) {A} (m : M A) : Prop :=
  forall w e, fst (m w) = Raise e -> changes fp w (snd (m w)).


(** The commands whose last step is [setup_kag]. *)
Definition runs_setup_kag (cmd : command) : bool :=
  match cmd with
  | Up | RestartKag => true
  | _ => false
  end.

(** The worlds an action leaves in the same state as it found them. *)
Definition reads_only {A} (m : M A) : Prop := forall w, snd (m w) = w.

(** Anything but the key fields of the state object and the state file. *)
Definition fp_keep_key : footprint :=
  {| fp_key_name := false; fp_key_uploaded := false; fp_droplet := true;
     fp_host_done := true; fp_app_done := true; fp_state_file := false;
     fp_local := true; fp_remote := true; fp_sessions := true;
     fp_fuel := true; fp_calls := any_call |}.

(** Anything but [done_droplet_setup] and the state file. *)
Definition fp_keep_host : footprint :=
  {| fp_key_name := true; fp_key_uploaded := true; fp_droplet := true;
     fp_host_done := false; fp_app_done := true; fp_state_file := false;
     fp_local := true; fp_remote := true; fp_sessions := true;
     fp_fuel := true; fp_calls := any_call |}.

(** Anything but [done_kag_setup] and the state file. *)
Definition fp_keep_app : footprint :=
  {| fp_key_name := true; fp_key_uploaded := true; fp_droplet := true;
     fp_host_done := true; fp_app_done := false; fp_state_file := false;
     fp_local := true; fp_remote := true; fp_sessions := true;
     fp_fuel := true; fp_calls := any_call |}.

(** The state object holds a droplet handle. *)
Definition has_droplet (w : World) : Prop :=
  exists d, droplet (w_state w) = Some d.

(** [w] with another configuration file, or none. *)
Definition with_config_file (c : option pyval) (w : World) : World :=
  {| w_state := w_state w; w_state_file := w_state_file w;
     w_config_file := c; w_local := w_local w;
     w_remote := w_remote w; w_trace := w_trace w; w_clock := w_clock w;
     w_sessions := w_sessions w; w_next_session := w_next_session w |}.

(** Every step done by an earlier [up]: the server runs. *)
Definition served_state : State :=
  {| ssh_key_name := Some "one_click_kag_server_0a1b2c3d";
     ssh_key_uploaded := true; droplet := Some sample_droplet;
     done_droplet_setup := true; done_kag_setup := true |}.

Definition served_world : World :=
  world_of served_state sample_local
    (Dir [("Cache", Dir [("players.cfg", File "alice"); ("maps", Dir [])])]).

(** [r] leaves [p] at some component: the two paths name different
    entries of one directory, so [r] is neither [p], nor below it, nor
    above it. *)
Fixpoint diverge (p r : path) : bool :=
  match p, r with
  | a :: p', b :: r' => if String.eqb a b then diverge p' r' else true
  | _, _ => false
  end.

(** [m] leaves what is found at [r] in one of the two trees as it is. *)
Definition keeps (side : World -> node) (r : path) {A} (m : M A) : Prop :=
  forall w, lookup (side (snd (m w))) r = lookup (side w) r.

(** Only the remote tree and the log. *)
Definition fp_remote_only : footprint :=
  {| fp_key_name := false; fp_key_uploaded := false; fp_droplet := false;
     fp_host_done := false; fp_app_done := false; fp_state_file := false;
     fp_local := false; fp_remote := true; fp_sessions := false;
     fp_fuel := false; fp_calls := any_call |}.

(** Only the local tree and the log. *)
Definition fp_local_only : footprint :=
  {| fp_key_name := false; fp_key_uploaded := false; fp_droplet := false;
     fp_host_done := false; fp_app_done := false; fp_state_file := false;
     fp_local := true; fp_remote := false; fp_sessions := false;
     fp_fuel := false; fp_calls := any_call |}.

(** Every regular file of [n] is found under [root] in [fs], at the same
    relative path and with the same content. *)
Definition holds_files_of (fs : node) (root : path) (n : node) : Prop :=
  forall q data,
    lookup n q = Some (File data) -> lookup fs (root ++ q) = Some (File data).

(** What an upload of [n] that returns has done, whatever the remote
    directory held. *)
Definition uploads_files (env : Env) (n : node) : Prop :=
  forall source target w w',
    lookup (w_local w) source = Some n ->
    wf_node n ->
    put_dir_from env n source target w = (Ok tt, w') ->
    holds_files_of (w_remote w') target n.

(** What a download of [n] that returns has done, whatever the local
    directory held. *)
Definition downloads_files (env : Env) (n : node) : Prop :=
  forall path dest w w',
    lookup (w_remote w) path = Some n ->
    wf_node n ->
    get_recursive_from env n path dest w = (Ok tt, w') ->
    holds_files_of (w_local w') dest n.

(** The open sessions and the log: neither tree, no field of the state. *)
Definition fp_session_only : footprint :=
  {| fp_key_name := false; fp_key_uploaded := false; fp_droplet := false;
     fp_host_done := false; fp_app_done := false; fp_state_file := false;
     fp_local := false; fp_remote := false; fp_sessions := true;
     fp_fuel := false; fp_calls := any_call |}.

(** The state object, the open sessions and the log: neither tree. *)
Definition fp_no_tree : footprint :=
  {| fp_key_name := true; fp_key_uploaded := true; fp_droplet := true;
     fp_host_done := true; fp_app_done := true; fp_state_file := false;
     fp_local := false; fp_remote := false; fp_sessions := true;
     fp_fuel := false; fp_calls := any_call |}.

(** Anything but the remote tree and the state file. *)
Definition fp_no_remote : footprint :=
  {| fp_key_name := true; fp_key_uploaded := true; fp_droplet := true;
     fp_host_done := true; fp_app_done := true; fp_state_file := false;
     fp_local := true; fp_remote := false; fp_sessions := true;
     fp_fuel := false; fp_calls := any_call |}.

(** Anything but the local tree and the state file. *)
Definition fp_no_local : footprint :=
  {| fp_key_name := true; fp_key_uploaded := true; fp_droplet := true;
     fp_host_done := true; fp_app_done := true; fp_state_file := false;
     fp_local := false; fp_remote := true; fp_sessions := true;
     fp_fuel := false; fp_calls := any_call |}.

(** [config["kag"][k]] *)
Definition kag_item (config : pyval) (k : string) : exn + pyval :=
  match py_getitem config "kag" with
  | inr kag => py_getitem kag k
  | inl e => inl e
  end.





(** What is found at a path: nothing, a directory, or a regular file with
    its content. *)
Inductive kind : Type :=
| Absent
| IsDir
| IsFile (data : string).

Definition kind_at (n : node) (q : path) : kind :=
  match lookup n q with
  | None => Absent
  | Some (Dir _) => IsDir
  | Some (File data) => IsFile data
  end.








(* ================================================================= *)
(** ** Results: what an action may change *)

Ltac split_all := repeat match goal with |- _ /\ _ => split end.

Lemma changes_refl fp w : changes fp w w.
Proof.
  unfold changes. split_all; try reflexivity; try (intros; reflexivity);
    try (intros; split; reflexivity); try lia.
  exists []. now rewrite app_nil_r.
Qed.

Lemma changes_trans fp w1 w2 w3 :
  changes fp w1 w2 -> changes fp w2 w3 -> changes fp w1 w3.
Proof.
  unfold changes.
  intros (A1 & A2 & A3 & A4 & A5 & A6 & A7 & A8 & A9 & (l1 & T1 & F1) & C1 & G1)
         (B1 & B2 & B3 & B4 & B5 & B6 & B7 & B8 & B9 & (l2 & T2 & F2) & C2 & G2).
  split_all.
  - intros H. rewrite (B1 H). exact (A1 H).
  - intros H. rewrite (B2 H). exact (A2 H).
  - intros H. rewrite (B3 H). exact (A3 H).
  - intros H. rewrite (B4 H). exact (A4 H).
  - intros H. rewrite (B5 H). exact (A5 H).
  - intros H. rewrite (B6 H). exact (A6 H).
  - intros H. rewrite (B7 H). exact (A7 H).
  - intros H. rewrite (B8 H). exact (A8 H).
  - intros H. destruct (A9 H), (B9 H). split; congruence.
  - exists (l1 ++ l2). rewrite T2, T1, app_assoc, forallb_app, F1, F2. now split.
  - lia.
  - congruence.
Qed.

Lemma forallb_weaken {X} (P Q : X -> bool) l :
  (forall x, P x = true -> Q x = true) ->
  forallb P l = true -> forallb Q l = true.
Proof.
  intros H. induction l as [| x l IH]; simpl; [reflexivity |].
  intros Hl. apply andb_true_iff in Hl as [Hx Hl].
  now rewrite (H _ Hx), IH.
Qed.

Ltac flag_le :=
  match goal with
  | H : ?f ?a = true -> ?f ?b = true, H' : ?f ?b = false |- _ =>
      destruct (f a); [specialize (H eq_refl); congruence |]
  end.

Lemma changes_weaken a b w w' : fp_le a b -> changes a w w' -> changes b w w'.
Proof.
  unfold fp_le, changes.
  intros (L1 & L2 & L3 & L4 & L5 & L6 & L7 & L8 & L9 & L10 & L11)
         (A1 & A2 & A3 & A4 & A5 & A6 & A7 & A8 & A9 & (l & T & F) & C & G).
  split_all; try (intros H; flag_le; auto).
  - exists l. split; [exact T | eapply forallb_weaken; eauto].
  - exact C.
  - exact G.
Qed.

Section Within.

Variable fp : footprint.

(** *** The structure of actions *)

Lemma within_ret {A} (a : A) : within fp (ret a).
Proof. intros w. split; [discriminate | apply changes_refl]. Qed.

Lemma within_raise {A} e : within fp (raise (A:=A) e).
Proof. intros w. split; [discriminate | apply changes_refl]. Qed.

Lemma within_lift {A} (r : exn + A) : within fp (lift r).
Proof. destruct r; [apply within_raise | apply within_ret]. Qed.

Lemma within_raise_if c e : within fp (raise_if c e).
Proof. destruct c; [apply within_raise | apply within_ret]. Qed.

Lemma within_read {A} (g : World -> A) : within fp (read g).
Proof. intros w. split; [discriminate | apply changes_refl]. Qed.

Lemma within_bind {A B} (m : M A) (f : A -> M B) :
  within fp m -> (forall a, within fp (f a)) -> within fp (bind m f).
Proof.
  intros Hm Hf w. unfold bind.
  destruct (Hm w) as [Hfuel Hch].
  destruct (m w) as [[a | e |] w1]; simpl in *.
  - destruct (Hf a w1) as [Hfuel' Hch']. split; [exact Hfuel' |].
    eapply changes_trans; eauto.
  - split; [discriminate | exact Hch].
  - split; [| exact Hch]. intros H. now destruct (Hfuel H).
Qed.

Lemma within_for_each {A} (body : A -> M unit) l :
  (forall x, In x l -> within fp (body x)) -> within fp (for_each body l).
Proof.
  induction l as [| x l IH]; intros H; simpl.
  - apply within_ret.
  - apply within_bind; [apply H; now left |].
    intros _. apply IH. intros y Hy. apply H. now right.
Qed.

Lemma within_try_except {A} (body : M A) catches handler :
  within fp body -> (forall e, within fp (handler e)) ->
  within fp (try_except body catches handler).
Proof.
  intros Hb Hh w. unfold try_except.
  destruct (Hb w) as [Hfuel Hch].
  destruct (body w) as [[a | e |] w1]; simpl in *.
  - split; [discriminate | exact Hch].
  - destruct (catches e).
    + destruct (Hh e w1) as [Hfuel' Hch']. split; [exact Hfuel' |].
      eapply changes_trans; eauto.
    + split; [discriminate | exact Hch].
  - split; [exact Hfuel | exact Hch].
Qed.

Lemma within_try_finally {A} (body : M A) final :
  within fp body -> within fp final -> within fp (try_finally body final).
Proof.
  intros Hb Hf w. unfold try_finally.
  destruct (Hb w) as [Hfuel Hch].
  destruct (body w) as [[a | e |] w1]; simpl in *;
    [| | split; [exact Hfuel | exact Hch]];
    destruct (Hf w1) as [Hfuel' Hch'];
    destruct (final w1) as [[[] | e' |] w2]; simpl in *;
    (split; [| eapply changes_trans; eauto]);
    first [discriminate | intros H; now destruct (Hfuel' H)].
Qed.

(** *** The actions that touch the world *)

Lemma within_set_ssh_key_name v :
  fp_key_name fp = true -> within fp (modify_state (set_ssh_key_name v)).
Proof.
  intros H w. split; [discriminate |]. unfold changes. cbn.
  split_all; try (intros; reflexivity); try (intros; split; reflexivity);
    try congruence; try lia.
  exists []. now rewrite app_nil_r.
Qed.

Lemma within_set_ssh_key_uploaded v :
  fp_key_uploaded fp = true -> within fp (modify_state (set_ssh_key_uploaded v)).
Proof.
  intros H w. split; [discriminate |]. unfold changes. cbn.
  split_all; try (intros; reflexivity); try (intros; split; reflexivity);
    try congruence; try lia.
  exists []. now rewrite app_nil_r.
Qed.

Lemma within_set_droplet v :
  fp_droplet fp = true -> within fp (modify_state (set_droplet v)).
Proof.
  intros H w. split; [discriminate |]. unfold changes. cbn.
  split_all; try (intros; reflexivity); try (intros; split; reflexivity);
    try congruence; try lia.
  exists []. now rewrite app_nil_r.
Qed.

Lemma within_set_done_droplet_setup v :
  fp_host_done fp = true -> within fp (modify_state (set_done_droplet_setup v)).
Proof.
  intros H w. split; [discriminate |]. unfold changes. cbn.
  split_all; try (intros; reflexivity); try (intros; split; reflexivity);
    try congruence; try lia.
  exists []. now rewrite app_nil_r.
Qed.

Lemma within_set_done_kag_setup v :
  fp_app_done fp = true -> within fp (modify_state (set_done_kag_setup v)).
Proof.
  intros H w. split; [discriminate |]. unfold changes. cbn.
  split_all; try (intros; reflexivity); try (intros; split; reflexivity);
    try congruence; try lia.
  exists []. now rewrite app_nil_r.
Qed.

(** Replacing the whole object touches every field. *)
Lemma within_modify_state f :
  fp_key_name fp = true -> fp_key_uploaded fp = true -> fp_droplet fp = true ->
  fp_host_done fp = true -> fp_app_done fp = true ->
  within fp (modify_state f).
Proof.
  intros H1 H2 H3 H4 H5 w. split; [discriminate |]. unfold changes. cbn.
  split_all; try (intros; reflexivity); try (intros; split; reflexivity);
    try congruence; try lia.
  exists []. now rewrite app_nil_r.
Qed.

Lemma within_write_state_file :
  fp_state_file fp = true -> within fp write_state_file.
Proof.
  intros H w. split; [discriminate |]. unfold changes. cbn.
  split_all; try (intros; reflexivity); try (intros; split; reflexivity);
    try congruence; try lia.
  exists []. now rewrite app_nil_r.
Qed.

Lemma within_update_local f : fp_local fp = true -> within fp (update_local f).
Proof.
  intros H w. unfold update_local.
  destruct (f (w_local w)); (split; [discriminate |]);
    [apply changes_refl |].
  unfold changes. cbn.
  split_all; try (intros; reflexivity); try (intros; split; reflexivity);
    try congruence; try lia.
  exists []. now rewrite app_nil_r.
Qed.

Lemma within_update_remote f : fp_remote fp = true -> within fp (update_remote f).
Proof.
  intros H w. unfold update_remote.
  destruct (f (w_remote w)); (split; [discriminate |]);
    [apply changes_refl |].
  unfold changes. cbn.
  split_all; try (intros; reflexivity); try (intros; split; reflexivity);
    try congruence; try lia.
  exists []. now rewrite app_nil_r.
Qed.

Lemma within_session_open : fp_sessions fp = true -> within fp session_open.
Proof.
  intros H w. split; [discriminate |]. unfold changes. cbn.
  split_all; try (intros; reflexivity); try (intros; split; reflexivity);
    try congruence; try lia.
  exists []. now rewrite app_nil_r.
Qed.

Lemma within_session_close sid :
  fp_sessions fp = true -> within fp (session_close sid).
Proof.
  intros H w. split; [discriminate |]. unfold changes. cbn.
  split_all; try (intros; reflexivity); try (intros; split; reflexivity);
    try congruence; try lia.
  exists []. now rewrite app_nil_r.
Qed.

Variable env : Env.

Lemma within_log e : fp_calls fp e = true -> within fp (log env e).
Proof.
  intros H w. split; [discriminate |]. unfold changes. cbn.
  split_all; try (intros; reflexivity); try (intros; split; reflexivity); try lia.
  exists [e]. cbn. now rewrite H.
Qed.

Lemma within_sleep s :
  fp_calls fp (EvSleep s) = true -> (0 <= s)%Z -> within fp (sleep s).
Proof.
  intros H Hs w. split; [discriminate |]. unfold changes. cbn.
  split_all; try (intros; reflexivity); try (intros; split; reflexivity); try lia.
  exists [EvSleep s]. cbn. now rewrite H.
Qed.

Lemma retry_loop_changes {A} (fn : M A) wait stop start :
  fp_calls fp (EvSleep wait) = true -> (0 <= wait)%Z ->
  (forall w, changes fp w (snd (fn w))) ->
  forall fuel k w,
    changes fp w (snd (retry_loop fuel wait stop start k fn w)).
Proof.
  intros Hcall Hwait Hfn.
  induction fuel as [| fuel IH]; intros k w; simpl.
  - apply changes_refl.
  - pose proof (Hfn w) as Hch.
    destruct (fn w) as [[a | e |] w1]; simpl in *; try exact Hch.
    destruct (stop * 1000 <=? w_clock w1 - start)%Z; [exact Hch |].
    eapply changes_trans; [exact Hch |].
    unfold bind. destruct (within_sleep wait Hcall Hwait w1) as [_ Hs].
    destruct (sleep wait w1) as [[[] | e' |] w2] eqn:E; simpl in *;
      try exact Hs.
    eapply changes_trans; [exact Hs | apply IH].
Qed.

(** With wait 5 and delay 120, 25 units of fuel are enough: the 25th
    attempt starts 120 s after the first or later. *)
Lemma retry_loop_total {A} (fn : M A) start :
  (forall w, fst (fn w) <> OutOfFuel) ->
  (forall w, (w_clock w <= w_clock (snd (fn w)))%Z) ->
  forall fuel k w,
    1 <= k <= 25 ->
    26 - k <= fuel ->
    (5000 * (Z.of_nat k - 1) <= w_clock w - start)%Z ->
    fst (retry_loop fuel 5 120 start k fn w) <> OutOfFuel.
Proof.
  intros Htotal Hclock.
  induction fuel as [| fuel IH]; intros k w Hk Hfuel Hstart; [lia |].
  simpl. pose proof (Htotal w) as Ht. pose proof (Hclock w) as Hc.
  destruct (fn w) as [[a | e |] w1]; cbn [fst snd] in *;
    [discriminate | | congruence].
  destruct (120000 <=? w_clock w1 - start)%Z eqn:Hstop; [discriminate |].
  apply Z.leb_gt in Hstop. unfold bind, sleep.
  apply IH; [lia | lia |].
  rewrite Nat2Z.inj_succ. cbn [w_clock upd_trace]. lia.
Qed.

Lemma within_retry_loop {A} (fn : M A) fuel wait stop start k :
  fp_fuel fp = true -> fp_calls fp (EvSleep wait) = true -> (0 <= wait)%Z ->
  within fp fn ->
  within fp (retry_loop fuel wait stop start k fn).
Proof.
  intros Hfuel Hcall Hwait Hfn w. split; [congruence |].
  apply retry_loop_changes; auto. intros w0. apply Hfn.
Qed.

Lemma within_retry_5_120 {A} (fn : M A) fuel :
  fp_calls fp (EvSleep 5) = true -> 25 <= fuel ->
  within fp fn ->
  within fp (retry 5 120 fuel fn).
Proof.
  intros Hcall Hfuel Hfn w. unfold retry, bind, read. split.
  - intros Hflag. apply retry_loop_total.
    + intros w0. now apply Hfn.
    + intros w0. destruct (Hfn w0) as [_ Hch]. apply Hch.
    + lia.
    + lia.
    + simpl. lia.
  - apply retry_loop_changes; auto; [lia |]. intros w0. apply Hfn.
Qed.

End Within.

(** *** Induction on file trees *)

Lemma node_induction (P : node -> Prop) :
  (forall c, P (File c)) ->
  (forall es, Forall (fun e => P (snd e)) es -> P (Dir es)) ->
  forall n, P n.
Proof.
  intros HF HD. fix IH 1. intros [c | es]; [apply HF | apply HD].
  revert es. fix IHes 1. intros [| [x c] es].
  - constructor.
  - constructor; [apply IH | apply IHes].
Qed.

(** *** The actions of the program *)

Create HintDb model.

#[local] Hint Unfold external os_path_exists os_path_isdir os_path_isfile
  os_listdir os_mkdir os_makedirs write_file read_file copyfile with_tempdir
  ssh_connect ssh_close ssh_exec open_sftp sftp_close sftp_put sftp_get
  sftp_mkdir sftp_listdir_attr mkdir_over mkdir put_dir get_recursive
  State_save State_load the_droplet droplet_load digitalocean_key
  create_droplet open_ssh_connection wait_for_droplet_to_be_active_once
  check_config get_unique_id create_ssh_keypair
  configure_ssh_key setup_droplet security_file setup_kag follow_kag_logs
  run_command_up run_command_down exec_ssh run_command_rcon run_command main
  get_state : model.

Ltac side := first [reflexivity | assumption | lia | (intros; reflexivity) | solve [auto]].

Ltac within_kernel :=
  cbv beta;
  lazymatch goal with
  | |- within _ (bind _ _) => apply within_bind; [| intros ?]
  | |- within _ (ret _) => apply within_ret
  | |- within _ (raise _) => apply within_raise
  | |- within _ (lift _) => apply within_lift
  | |- within _ (raise_if _ _) => apply within_raise_if
  | |- within _ (read _) => apply within_read
  | |- within _ (for_each _ _) => apply within_for_each; intros ? ?
  | |- within _ (try_except _ _ _) => apply within_try_except; [| intros ?]
  | |- within _ (try_finally _ _) => apply within_try_finally
  | |- within _ (modify_state (set_ssh_key_name _)) =>
      apply within_set_ssh_key_name; side
  | |- within _ (modify_state (set_ssh_key_uploaded _)) =>
      apply within_set_ssh_key_uploaded; side
  | |- within _ (modify_state (set_droplet _)) => apply within_set_droplet; side
  | |- within _ (modify_state (set_done_droplet_setup _)) =>
      apply within_set_done_droplet_setup; side
  | |- within _ (modify_state (set_done_kag_setup _)) =>
      apply within_set_done_kag_setup; side
  | |- within _ (modify_state _) => apply within_modify_state; side
  | |- within _ write_state_file => apply within_write_state_file; side
  | |- within _ (update_local _) => apply within_update_local; side
  | |- within _ (update_remote _) => apply within_update_remote; side
  | |- within _ session_open => apply within_session_open; side
  | |- within _ (session_close _) => apply within_session_close; side
  | |- within _ (log _ _) => apply within_log; side
  | |- within _ (sleep _) => apply within_sleep; side
  | |- within _ (retry_loop _ _ _ _ _ _) =>
      apply within_retry_loop; [side | side | side |]
  | |- within _ (match ?x with _ => _ end) => destruct x
  end.

Section Derived.

Variable env : Env.
Variable fp : footprint.

Lemma within_put_dir_from :
  fp_remote fp = true ->
  (forall p, fp_calls fp (EvSftpPut p) = true) ->
  (forall p, fp_calls fp (EvSftpMkdir p) = true) ->
  forall n source target, within fp (put_dir_from env n source target).
Proof.
  intros Hremote Hput Hmkdir.
  induction n as [c | es IH] using node_induction; intros source target;
    cbn [put_dir_from]; autounfold with model; repeat within_kernel.
  rewrite Forall_forall in IH.
  match goal with H : In _ es |- _ => apply (IH _ H) end.
Qed.

Lemma within_get_recursive_from :
  fp_local fp = true ->
  (forall p, fp_calls fp (EvSftpListdir p) = true) ->
  (forall p, fp_calls fp (EvSftpGet p) = true) ->
  forall n path dest, within fp (get_recursive_from env n path dest).
Proof.
  intros Hlocal Hlist Hget.
  induction n as [c | es IH] using node_induction; intros path dest;
    cbn [get_recursive_from]; autounfold with model; repeat within_kernel.
  rewrite Forall_forall in IH.
  match goal with H : In _ es |- _ => apply (IH _ H) end.
Qed.

End Derived.

(** One step: an action of the kernel, a walk of a tree, or the body of a
    definition of the program. *)
Ltac within_step :=
  first
    [ within_kernel
    | lazymatch goal with
      | |- within _ (put_dir_from _ _ _ _) => apply within_put_dir_from; side
      | |- within _ (get_recursive_from _ _ _ _) =>
          apply within_get_recursive_from; side
      | |- within _ (wait_for_droplet_to_be_active _ _) =>
          unfold wait_for_droplet_to_be_active
      | |- within _ (retry 5 120 _ _) =>
          first [apply within_retry_5_120; [side | side |] | unfold retry]
      end
    | progress autounfold with model ].

Ltac within_auto := repeat within_step.

(* ================================================================= *)
(** ** Results: file trees *)

Lemma find_entry_set_entry x v es : find_entry x (set_entry x v es) = Some v.
Proof.
  induction es as [| [n c] es IH]; simpl.
  - now rewrite String.eqb_refl.
  - destruct (String.eqb x n) eqn:E; simpl; rewrite E; [reflexivity | exact IH].
Qed.




Lemma find_entry_none x es : find_entry x es = None <-> ~ In x (names es).
Proof.
  induction es as [| [n c] es IH]; simpl.
  - tauto.
  - destruct (String.eqb_spec x n) as [-> | Hne].
    + split; [discriminate | tauto].
    + rewrite IH. split; [intros H [E | E]; [congruence | tauto] | tauto].
Qed.

(** In a listing without repeated names, the entry found under a name is
    the one listed. *)
Lemma find_entry_middle done x c todo :
  NoDup (names (done ++ (x, c) :: todo)) ->
  find_entry x (done ++ (x, c) :: todo) = Some c.
Proof.
  induction done as [| [n d] done IH]; simpl; intros H.
  - now rewrite String.eqb_refl.
  - inversion H as [| ? ? Hnotin Hrest]; subst.
    destruct (String.eqb_spec x n) as [-> | Hne]; [| now apply IH].
    exfalso. apply Hnotin. unfold names. rewrite map_app. apply in_or_app.
    right. now left.
Qed.

Lemma find_entry_done_fresh done x c todo :
  NoDup (names (done ++ (x, c) :: todo)) -> find_entry x done = None.
Proof.
  intros H. apply find_entry_none. intros Hin.
  unfold names in H. rewrite map_app in H. simpl in H.
  apply NoDup_remove_2 in H. apply H. apply in_or_app. now left.
Qed.

Lemma lookup_app n p q :
  lookup n (p ++ q) =
  match lookup n p with Some m => lookup m q | None => None end.
Proof.
  revert n. induction p as [| x p IH]; intros n; simpl; [reflexivity |].
  destruct n as [c | es]; [reflexivity |].
  destruct (find_entry x es); [apply IH | reflexivity].
Qed.

Lemma lookup_snoc n p x es :
  lookup n p = Some (Dir es) -> lookup n (p ++ [x]) = find_entry x es.
Proof.
  intros H. rewrite lookup_app, H. simpl. now destruct (find_entry x es).
Qed.

Lemma lookup_put_node n p v n1 :
  put_node n p v = Some n1 -> lookup n1 p = Some v.
Proof.
  revert n n1. induction p as [| x p IH]; intros n n1; simpl.
  - intros H. now injection H as ->.
  - destruct n as [c | es]; [discriminate |].
    destruct (find_entry x es) as [c |] eqn:E.
    + destruct (put_node c p v) as [c' |] eqn:Hc; [| discriminate].
      intros H. injection H as <-. rewrite find_entry_set_entry. now apply (IH c).
    + destruct p; [| discriminate].
      intros H. injection H as <-. now rewrite find_entry_set_entry.
Qed.







Lemma wf_node_child es x c :
  wf_node (Dir es) -> In (x, c) es -> wf_node c.
Proof.
  simpl. intros [_ H]. induction es as [| [n d] es IH]; simpl; [tauto |].
  destruct H as [Hd Hrest]. intros [E | Hin]; [congruence | auto].
Qed.

Lemma wf_node_names es : wf_node (Dir es) -> NoDup (names es).
Proof. simpl. tauto. Qed.

Lemma tree_equiv_refl n : wf_node n -> tree_equiv n n = true.
Proof.
  induction n as [c | es IH] using node_induction; intros Hwf.
  - simpl. apply String.eqb_refl.
  - cbn [tree_equiv]. rewrite Nat.eqb_refl. cbn [andb].
    assert (H : forall done todo, es = done ++ todo ->
              (fix all (l : list (string * node)) : bool :=
                 match l with
                 | [] => true
                 | (n, c) :: rest =>
                     match find_entry n es with
                     | Some d => tree_equiv c d && all rest
                     | None => false
                     end
                 end) todo = true).
    { intros done todo. revert done.
      induction todo as [| [x c] todo IHt]; intros done E; [reflexivity |].
      rewrite E at 1. rewrite find_entry_middle
        by (rewrite <- E; now apply wf_node_names).
      assert (Hin : In (x, c) es) by (rewrite E; apply in_or_app; right; now left).
      rewrite Forall_forall in IH.
      pose proof (IH (x, c) Hin (wf_node_child es x c Hwf Hin)) as Hc.
      cbn [snd] in Hc. rewrite Hc. cbn [andb].
      apply (IHt (done ++ [(x, c)])). now rewrite <- app_assoc. }
    now apply (H []).
Qed.

(* ================================================================= *)
(** ** Results: the monad *)

Section MonadFacts.

Context {A B : Type}.

(** A sequence that returns has run both of its parts. *)
Lemma bind_ok_inv (m : M A) (f : A -> M B) w b w2 :
  bind m f w = (Ok b, w2) ->
  exists a w1, m w = (Ok a, w1) /\ f a w1 = (Ok b, w2).
Proof.
  unfold bind. destruct (m w) as [[a | e |] w1]; intros H; try discriminate.
  now exists a, w1.
Qed.

End MonadFacts.

(* ================================================================= *)
(** ** check_config *)

(** C10. A configuration document without the sequence [kag.mods] is
    rejected by [check_config] with an exception, also when the provider
    credential is there, and before anything has been done: the world is
    the one the check started in. *)
Theorem check_config_rejects_missing_mods env config w :
  kag_mods config = None ->
  exists e, check_config env config w = (Raise e, w).
Proof.
  intros Hmods.
  unfold check_config, bind, lift, raise_if, ret, raise, read.
  destruct config as [| b | z | s | l | d]; simpl;
    try (eexists; reflexivity).
  destruct (find_field "secrets" d) as [secrets |] eqn:Hs.
  - destruct secrets as [| b | z | s | l | sd]; simpl;
      try (eexists; reflexivity).
    destruct (find_field "digitalocean_key" sd) as [key |]; simpl;
      [| eexists; reflexivity].
    destruct (py_truthy key); simpl; [| eexists; reflexivity].
    simpl in Hmods.
    destruct (find_field "kag" d) as [kag |]; simpl; [| eexists; reflexivity].
    destruct kag as [| b | z | s | l | k]; simpl; try (eexists; reflexivity).
    rewrite Hmods. simpl. eexists; reflexivity.
  - simpl. eexists; reflexivity.
Qed.

Lemma check_config_rejects_missing_mods_witness :
  kag_mods config_without_mods = None /\
  exists e, check_config sample_env config_without_mods fresh_world = (Raise e, fresh_world).
Proof.
  split; [reflexivity |].
  apply (check_config_rejects_missing_mods sample_env config_without_mods fresh_world).
  reflexivity.
Defined.

(* ================================================================= *)
(** ** MySFTPClient.mkdir *)

Lemma mkdir_over_spec (super_mkdir : path -> M unit) p ignore_existing w :
  mkdir_over super_mkdir p ignore_existing w =
  match super_mkdir p w with
  | (Raise e, w1) =>
      if is_IOError e && ignore_existing then (Ok tt, w1) else (Raise e, w1)
  | other => other
  end.
Proof.
  unfold mkdir_over, try_except.
  destruct (super_mkdir p w) as [[[] | e |] w1]; try reflexivity.
  destruct (is_IOError e), ignore_existing; reflexivity.
Qed.

(** The SFTP [mkdir] of the model fails with an [IOError] or not at all. *)
Lemma sftp_mkdir_raises_IOError env p w e w1 :
  sftp_mkdir env p w = (Raise e, w1) -> is_IOError e = true.
Proof.
  unfold sftp_mkdir, bind, log, update_remote, fs_mkdir. simpl.
  destruct (lookup (w_remote w) p); simpl.
  - intros H; injection H as <- _; reflexivity.
  - destruct (put_node (w_remote w) p (Dir [])); simpl; intros H;
      [discriminate | injection H as <- _; reflexivity].
Qed.

Lemma mkdir_ignore_existing_ok env p w :
  fst (mkdir env p true w) = Ok tt.
Proof.
  unfold mkdir. rewrite mkdir_over_spec.
  destruct (sftp_mkdir env p w) as [[[] | e |] w1] eqn:H; simpl.
  - reflexivity.
  - rewrite (sftp_mkdir_raises_IOError _ _ _ _ _ H). reflexivity.
  - exfalso. revert H. unfold sftp_mkdir, bind, log, update_remote. simpl.
    destruct (fs_mkdir (w_remote w) p); discriminate.
Qed.

(** A directory that is there already: the underlying [mkdir] fails, the
    failure is dropped, nothing has changed on the remote side. *)
Lemma mkdir_existing env p w n :
  lookup (w_remote w) p = Some n ->
  fst (mkdir env p true w) = Ok tt /\
  w_remote (snd (mkdir env p true w)) = w_remote w.
Proof.
  intros H. unfold mkdir, mkdir_over, try_except, sftp_mkdir, update_remote.
  unfold bind, log, fs_mkdir. cbn. rewrite H. split; reflexivity.
Qed.

(** What the handler of [mkdir] does. With [ignore_existing] set, [mkdir]
    returns normally when the underlying [mkdir] fails with any [IOError],
    whether the directory exists already or not; it propagates a failure
    only when that is not an [IOError] or when [ignore_existing] is not
    set. A second call on the same path therefore returns normally, and a
    call on a directory that exists returns normally and changes nothing:
    so far the docstring ("an option to not fail if the folder exists") is
    kept. *)
Lemma mkdir_swallows_every_IOError :
  (forall (super_mkdir : path -> M unit) p ignore_existing w,
      mkdir_over super_mkdir p ignore_existing w =
      match super_mkdir p w with
      | (Raise e, w1) =>
          if is_IOError e && ignore_existing then (Ok tt, w1) else (Raise e, w1)
      | other => other
      end) /\
  (forall env p w,
      fst (mkdir env p true (snd (mkdir env p true w))) = Ok tt) /\
  (forall env p w n,
      lookup (w_remote w) p = Some n ->
      fst (mkdir env p true w) = Ok tt /\
      w_remote (snd (mkdir env p true w)) = w_remote w).
Proof.
  split_all.
  - apply mkdir_over_spec.
  - intros. apply mkdir_ignore_existing_ok.
  - apply mkdir_existing.
Qed.

Lemma mkdir_swallows_every_IOError_witness :
  fst (mkdir sample_env ["Cache"] true running_world) = Ok tt /\
  w_remote (snd (mkdir sample_env ["Cache"] true running_world))
  = w_remote running_world.
Proof.
  apply (proj2 (proj2 mkdir_swallows_every_IOError) sample_env ["Cache"]
           running_world (Dir [("players.cfg", File "alice"); ("maps", Dir [])])).
  reflexivity.
Defined.

(** C7, at the failing input: the parent of [a/b] does not exist, the
    underlying [mkdir] fails with "no such file", which is not "already
    exists", and [mkdir] with [ignore_existing] returns normally all the
    same, leaving no directory behind, where the claim and the docstring
    of [mkdir] ("not fail if the folder exists") have the failure reach
    the caller. *)
Lemma mkdir_swallows_missing_parent :
  fst (sftp_mkdir sample_env ["a"; "b"] fresh_world) = Raise (IOError NoSuchFile) /\
  fst (mkdir sample_env ["a"; "b"] true fresh_world) = Ok tt /\
  lookup (w_remote (snd (mkdir sample_env ["a"; "b"] true fresh_world))) ["a"; "b"] = None.
Proof. repeat split. Qed.

(* ================================================================= *)
(** ** The retry loop *)

Section Retry.

Context {A : Type}.
Variable fn : M A.
Hypothesis fn_fails : always_fails fn.
Hypothesis fn_clock : clock_monotone fn.

(** Attempt [k] starts no earlier than [k - 1] sleeps of 5 s after the
    first one; the 25th attempt therefore ends at or after the 120 s. *)
Lemma retry_loop_gives_up fuel start k w :
  1 <= k <= 25 ->
  26 - k <= fuel ->
  (5000 * (Z.of_nat k - 1) <= w_clock w - start)%Z ->
  exists n e w',
    retry_loop fuel 5 120 start k fn w = (Raise (RetryError n e), w') /\
    k <= n <= 25.
Proof.
  revert k w. induction fuel as [| fuel IH]; intros k w Hk Hfuel Hclock.
  - lia.
  - simpl. destruct (fn_fails w) as (e & w1 & Hfn).
    pose proof (fn_clock w) as Hmono. rewrite Hfn in *. simpl in Hmono.
    destruct (120000 <=? w_clock w1 - start)%Z eqn:Hstop.
    + exists k, e, w1. split; [reflexivity | lia].
    + apply Z.leb_gt in Hstop.
      assert (k < 25) by lia.
      unfold bind, sleep.
      destruct (IH (S k) (upd_trace (EvSleep 5) (5 * 1000) w1)) as (n & e' & w' & Hrun & Hn);
        [lia | lia | rewrite Nat2Z.inj_succ; cbn [w_clock upd_trace]; lia |].
      exists n, e', w'. split; [exact Hrun | lia].
Qed.

End Retry.

(** C5, as the code has it. With wait 5 and delay 120, a function that
    raises at every attempt is tried at most 25 times, one more than
    120/5: the loop then raises [RetryError], carrying the number of the
    last attempt; 25 units of fuel are enough for it to come to that. *)
Theorem retry_stops_within_25_attempts {A} (fn : M A) fuel w :
  always_fails fn ->
  clock_monotone fn ->
  25 <= fuel ->
  exists n e w',
    retry 5 120 fuel fn w = (Raise (RetryError n e), w') /\ 1 <= n <= 25.
Proof.
  intros Hfails Hclock Hfuel. unfold retry, bind, read.
  apply retry_loop_gives_up; auto; simpl; lia.
Qed.

Lemma retry_stops_within_25_attempts_witness :
  exists n e w',
    retry 5 120 25 (raise (A:=unit) (ValueError "not yet")) fresh_world
    = (Raise (RetryError n e), w') /\ 1 <= n <= 25.
Proof.
  apply (retry_stops_within_25_attempts (raise (ValueError "not yet")) 25 fresh_world).
  - intros w. exists (ValueError "not yet"), w. reflexivity.
  - intros w. simpl. lia.
  - lia.
Defined.

(** C5, against the claim: the droplet never becomes active and every call
    takes 100 ms; [wait_for_droplet_to_be_active] gives up at its 25th
    attempt, and 120/5 is 24. *)
Lemma wait_for_droplet_makes_25_attempts :
  fst (wait_for_droplet_to_be_active never_active_env 100 resumed_world)
  = Raise (RetryError 25 (ValueError "Droplet is not active yet")) /\
  (24 < 25 /\ 120 / 5 = 24)%Z.
Proof. split; [vm_compute; reflexivity | split; reflexivity]. Qed.

(** The same for the wait of the program: when the droplet cannot be
    seen active and reached, [wait_for_droplet_to_be_active] gives up with
    [RetryError] after 25 attempts at most. *)
Lemma wait_for_droplet_gives_up env fuel w :
  always_fails (wait_for_droplet_to_be_active_once env) ->
  25 <= fuel ->
  exists n e w',
    wait_for_droplet_to_be_active env fuel w = (Raise (RetryError n e), w') /\
    1 <= n <= 25.
Proof.
  intros Hfails Hfuel. unfold wait_for_droplet_to_be_active, retry, bind, read.
  apply retry_loop_gives_up; auto; [| lia | simpl; lia].
  intros w0.
  assert (H : within (fp_up any_call) (wait_for_droplet_to_be_active_once env))
    by within_auto.
  destruct (H w0) as [_ Hch]. apply Hch.
Qed.

(* ================================================================= *)
(** ** main: the state is saved on every way out *)

(** With 25 units of fuel no command runs out of fuel. *)
Lemma run_command_total env fuel cmd config :
  25 <= fuel -> within (fp_all any_call) (run_command env fuel cmd config).
Proof. intros Hfuel. destruct cmd; within_auto. Qed.

(** C4. Once [main] has reached its command, whether the command returns
    or raises, the state file holds the state object as the command left
    it when [main] hands the outcome, unchanged, to its caller. *)
Theorem main_saves_state_on_every_exit env fuel cmd config w w0 r w1 :
  25 <= fuel ->
  w_config_file w = Some config ->
  check_config env config (loaded w) = (Ok tt, w0) ->
  run_command env fuel cmd config w0 = (r, w1) ->
  exists w2,
    main env fuel cmd w = (r, w2) /\
    (r = Ok tt \/ exists e, r = Raise e) /\
    w_state_file w2 = Some (w_state w1) /\
    w_state w2 = w_state w1.
Proof.
  intros Hfuel Hcfg Hcheck Hrun.
  assert (Hr : r <> OutOfFuel).
  { destruct (run_command_total env fuel cmd config Hfuel w0) as [H _].
    rewrite Hrun in H. now apply H. }
  unfold main, bind at 1. unfold read at 1. rewrite Hcfg.
  unfold State_load, bind at 1. unfold bind at 1. unfold read at 1.
  unfold modify_state at 1. unfold bind at 1. unfold modify_state at 1.
  change (upd_state (set_done_kag_setup false)
            (upd_state (fun _ => match w_state_file w with
                                 | Some s => s
                                 | None => State_init
                                 end) w)) with (loaded w).
  unfold bind at 1. rewrite Hcheck.
  unfold try_finally. rewrite Hrun.
  destruct r as [[] | e |]; [| | congruence]; simpl;
    (eexists; split_all; [reflexivity | eauto | reflexivity | reflexivity]).
Qed.

Lemma main_saves_state_on_every_exit_witness :
  exists w2,
    main failing_restart_env 30 Up fresh_world
    = (Raise (RuntimeError "Failed to setup KAG"), w2) /\
    (Raise (A:=unit) (RuntimeError "Failed to setup KAG") = Ok tt \/
     exists e, Raise (A:=unit) (RuntimeError "Failed to setup KAG") = Raise e) /\
    w_state_file w2 =
      Some (w_state (snd (run_command failing_restart_env 30 Up sample_config
                            (loaded fresh_world)))) /\
    w_state w2 =
      w_state (snd (run_command failing_restart_env 30 Up sample_config
                            (loaded fresh_world))).
Proof.
  apply (main_saves_state_on_every_exit failing_restart_env 30 Up sample_config
           fresh_world (loaded fresh_world)
           (Raise (RuntimeError "Failed to setup KAG"))
           (snd (run_command failing_restart_env 30 Up sample_config
                   (loaded fresh_world)))).
  - lia.
  - reflexivity.
  - vm_compute. reflexivity.
  - vm_compute. reflexivity.
Defined.

(** The flags of the steps that were completed before the failure are in
    the state file. *)
Lemma main_failed_restart_keeps_progress :
  fst (main failing_restart_env 30 Up fresh_world)
  = Raise (RuntimeError "Failed to setup KAG") /\
  option_map ssh_key_uploaded
    (w_state_file (snd (main failing_restart_env 30 Up fresh_world))) = Some true /\
  option_map done_droplet_setup
    (w_state_file (snd (main failing_restart_env 30 Up fresh_world))) = Some true /\
  option_map done_kag_setup
    (w_state_file (snd (main failing_restart_env 30 Up fresh_world))) = Some false.
Proof. repeat split; vm_compute; reflexivity. Qed.

(* ================================================================= *)
(** ** What an action has changed when it raises *)

Section RaisesWithin.

Variable fp : footprint.

Lemma raises_within_bind {A B} (m : M A) (f : A -> M B) :
  within fp m ->
  (forall a, raises_within fp (f a)) ->
  raises_within fp (bind m f).
Proof.
  intros Hm Hf w e. unfold bind. destruct (Hm w) as [_ Hch].
  destruct (m w) as [[a | e' |] w1]; simpl in *; intros H;
    try exact Hch.
  eapply changes_trans; [exact Hch | now apply (Hf a w1 e)].
Qed.

(** An action that cannot raise. *)
Lemma raises_within_never {A} (m : M A) :
  (forall w, exists a, fst (m w) = Ok a) -> raises_within fp m.
Proof. intros H w e He. destruct (H w) as [a Ha]. congruence. Qed.

Lemma raises_within_modify_state f : raises_within fp (modify_state f).
Proof. apply raises_within_never. intros w. now exists tt. Qed.

Lemma raises_within_session_open : raises_within fp session_open.
Proof. apply raises_within_never. intros w. now exists (w_next_session w). Qed.

End RaisesWithin.

(** Walk down a sequence whose parts before the last stay within the
    footprint. *)
Ltac raises_step :=
  lazymatch goal with
  | |- raises_within _ (bind _ _) =>
      apply raises_within_bind; [solve [within_auto] | intros ?]
  | |- raises_within _ (modify_state _) => apply raises_within_modify_state
  | |- raises_within _ session_open => apply raises_within_session_open
  | |- raises_within _ (match ?x with _ => _ end) => destruct x
  end.


(* ================================================================= *)
(** ** run_command_up: which steps run *)

(** What one run of an action within [fp] has changed. *)
Lemma within_run fp {A} (m : M A) w r w1 :
  within fp m -> m w = (r, w1) -> changes fp w w1.
Proof. intros Hm E. pose proof (proj2 (Hm w)) as H. now rewrite E in H. Qed.

Lemma changes_bind_read fp {A B} (g : World -> A) (f : A -> M B) w :
  changes fp w (snd (f (g w) w)) ->
  changes fp w (snd (bind (read g) f w)).
Proof. intros H. exact H. Qed.

Lemma changes_bind fp {A B} (m : M A) (f : A -> M B) w :
  within fp m ->
  (forall a w1, m w = (Ok a, w1) -> changes fp w w1 ->
                changes fp w1 (snd (f a w1))) ->
  changes fp w (snd (bind m f w)).
Proof.
  intros Hm Hf. destruct (Hm w) as [_ Hch]. unfold bind.
  destruct (m w) as [[a | e |] w1] eqn:E; simpl in *; try exact Hch.
  eapply changes_trans; [exact Hch |]. now apply Hf.
Qed.

Lemma changes_within fp {A} (m : M A) w :
  within fp m -> changes fp w (snd (m w)).
Proof. intros H. apply H. Qed.


Lemma changes_bind_le fp1 fp {A B} (m : M A) (f : A -> M B) w :
  within fp1 m ->
  fp_le fp1 fp ->
  (forall a w1, m w = (Ok a, w1) -> changes fp1 w w1 ->
                changes fp w1 (snd (f a w1))) ->
  changes fp w (snd (bind m f w)).
Proof.
  intros Hm Hle Hf. destruct (Hm w) as [_ Hch]. unfold bind.
  destruct (m w) as [[a | e |] w1] eqn:E; simpl in *;
    try (eapply changes_weaken; eauto; fail).
  eapply changes_trans; [eapply changes_weaken; eauto |]. now apply Hf.
Qed.

Lemma changes_trace fp w w' :
  changes fp w w' ->
  exists l, w_trace w' = w_trace w ++ l /\ forallb (fp_calls fp) l = true.
Proof. intros H. apply H. Qed.

Ltac fp_le_tac :=
  unfold fp_le; cbn; split_all; intros; auto; try discriminate.

Section RunCommandUp.

Variable env : Env.

(** C1. In a state with the key uploaded, the droplet handle set and the
    host setup done, [run_command_up] makes no call of the steps (a) to
    (d): no key pair is generated, no key is registered, no droplet is
    created, nothing is probed or slept for, no host-setup command is run. *)
Theorem run_command_up_skips_done_steps fuel config w d :
  ssh_key_uploaded (w_state w) = true ->
  droplet (w_state w) = Some d ->
  done_droplet_setup (w_state w) = true ->
  exists l,
    w_trace (snd (run_command_up env fuel config w)) = w_trace w ++ l /\
    forallb (fun e => negb (step_abcd_call e)) l = true.
Proof.
  intros Hkey Hd Hhost.
  apply (changes_trace (fp_app no_abcd_call)).
  unfold run_command_up, get_state.
  apply changes_bind_read. rewrite Hkey.
  apply changes_bind; [apply within_ret |]. intros [] w1 E _.
  injection E as <-.
  apply changes_bind_read. rewrite Hd.
  apply changes_bind; [apply within_ret |]. intros [] w1 E _.
  injection E as <-.
  apply changes_bind; [within_auto |]. intros [] w1 E Hch.
  apply changes_bind_read.
  destruct Hch as (_ & _ & _ & Hdone & _). rewrite (Hdone eq_refl), Hhost.
  apply changes_bind; [apply within_ret |]. intros [] w2 E' _.
  injection E' as <-.
  apply changes_within. within_auto.
Qed.




End RunCommandUp.

Lemma run_command_up_skips_done_steps_witness :
  exists l,
    w_trace (snd (run_command_up sample_env 30 sample_config provisioned_world))
    = w_trace provisioned_world ++ l /\
    forallb (fun e => negb (step_abcd_call e)) l = true.
Proof.
  apply (run_command_up_skips_done_steps sample_env 30 sample_config
           provisioned_world sample_droplet); reflexivity.
Defined.



(* ================================================================= *)
(** ** setup_droplet, setup_kag: a non-zero exit status *)

Lemma State_eq (s t : State) :
  ssh_key_name s = ssh_key_name t ->
  ssh_key_uploaded s = ssh_key_uploaded t ->
  droplet s = droplet t ->
  done_droplet_setup s = done_droplet_setup t ->
  done_kag_setup s = done_kag_setup t ->
  s = t.
Proof. destruct s, t; simpl; intros; subst; reflexivity. Qed.

Lemma changes_keeps_state calls w w' :
  changes (fp_io calls) w w' -> w_state w' = w_state w.
Proof.
  intros (H1 & H2 & H3 & H4 & H5 & _).
  apply State_eq; auto.
Qed.

Section Fails.

Variable fp : footprint.
Hypothesis fp_total : fp_fuel fp = false.

Lemma fails_raise {A} e : fails_within fp (raise (A:=A) e).
Proof. intros w. split; [now exists e | apply changes_refl]. Qed.

Lemma fails_bind_l {A B} (m : M A) (f : A -> M B) :
  fails_within fp m -> fails_within fp (bind m f).
Proof.
  intros Hm w. destruct (Hm w) as [[e He] Hch]. unfold bind.
  destruct (m w) as [[a | e' |] w1]; simpl in *; try discriminate.
  split; [now exists e' | exact Hch].
Qed.

(** The continuation fails for every value [m] can return with. *)
Lemma fails_bind_post {A B} (Q : A -> Prop) (m : M A) (f : A -> M B) :
  within fp m ->
  (forall w a w1, m w = (Ok a, w1) -> Q a) ->
  (forall a, Q a -> fails_within fp (f a)) ->
  fails_within fp (bind m f).
Proof.
  intros Hm HQ Hf w. destruct (Hm w) as [Hfuel Hch]. unfold bind.
  destruct (m w) as [[a | e |] w1] eqn:E; simpl in *.
  - destruct (Hf a (HQ _ _ _ E) w1) as [He Hch'].
    split; [exact He | eapply changes_trans; eauto].
  - split; [now exists e | exact Hch].
  - now destruct (Hfuel fp_total).
Qed.

Lemma fails_bind_r {A B} (m : M A) (f : A -> M B) :
  within fp m ->
  (forall a, fails_within fp (f a)) ->
  fails_within fp (bind m f).
Proof.
  intros Hm Hf. apply (fails_bind_post (fun _ => True)); auto.
Qed.

End Fails.

Section FailedSetup.

Variable env : Env.

Lemma ssh_exec_exit_status cmd sid w out st w1 :
  exits_nonzero env cmd ->
  ssh_exec env sid cmd w = (Ok (out, st), w1) ->
  st <> 0%Z.
Proof.
  intros Hcmd. unfold ssh_exec, external, bind, log, read, lift. cbn.
  destruct (Hcmd (w_trace w ++ [EvExec sid cmd])) as (out' & st' & Heq & Hne).
  rewrite Heq. cbn. intros H. injection H as _ <- _. exact Hne.
Qed.

Ltac fails_step :=
  apply fails_bind_r; [reflexivity | within_auto | intros ?].

Lemma setup_droplet_fails config :
  exits_nonzero env "./droplet_setup.sh 2>&1" ->
  fails_within (fp_io any_call) (setup_droplet env config).
Proof.
  intros Hcmd. unfold setup_droplet.
  do 6 fails_step.
  apply (fails_bind_post (fp_io any_call) eq_refl (fun r => snd r <> 0%Z)); [within_auto | |].
  - intros w [out st] w1 E. simpl. eapply ssh_exec_exit_status; eauto.
  - intros [out st] Hst. simpl in Hst.
    do 2 fails_step.
    apply fails_bind_l.
    apply Z.eqb_neq in Hst. rewrite Hst. apply fails_raise.
Qed.

Lemma setup_kag_fails config :
  exits_nonzero env "docker-compose up -d 2>&1" ->
  fails_within (fp_io any_call) (setup_kag env config).
Proof.
  intros Hcmd. unfold setup_kag.
  do 9 fails_step.
  apply (fails_bind_post (fp_io any_call) eq_refl (fun r => snd r <> 0%Z)); [within_auto | |].
  - intros w [out st] w1 E. simpl. eapply ssh_exec_exit_status; eauto.
  - intros [out st] Hst. simpl in Hst.
    apply fails_bind_l.
    apply Z.eqb_neq in Hst. rewrite Hst. apply fails_raise.
Qed.

(** C6. When the setup script of [setup_droplet], or the restart command
    of [setup_kag], ends with a non-zero exit status, the function raises
    and the state object is the one it was called with: its own flag has
    not been set (it stays unset when it was unset), and no other field
    has changed. *)
Theorem failed_setup_sets_no_flag config w :
  (exits_nonzero env "./droplet_setup.sh 2>&1" ->
   (exists e, fst (setup_droplet env config w) = Raise e) /\
   w_state (snd (setup_droplet env config w)) = w_state w /\
   (done_droplet_setup (w_state w) = false ->
    done_droplet_setup (w_state (snd (setup_droplet env config w))) = false)) /\
  (exits_nonzero env "docker-compose up -d 2>&1" ->
   (exists e, fst (setup_kag env config w) = Raise e) /\
   w_state (snd (setup_kag env config w)) = w_state w /\
   (done_kag_setup (w_state w) = false ->
    done_kag_setup (w_state (snd (setup_kag env config w))) = false)).
Proof.
  split; intros Hcmd.
  - destruct (setup_droplet_fails config Hcmd w) as [He Hch].
    apply changes_keeps_state in Hch. rewrite Hch. auto.
  - destruct (setup_kag_fails config Hcmd w) as [He Hch].
    apply changes_keeps_state in Hch. rewrite Hch. auto.
Qed.

End FailedSetup.

Lemma failed_setup_sets_no_flag_witness :
  ((exists e, fst (setup_droplet failing_exec_env sample_config resumed_world) = Raise e) /\
   w_state (snd (setup_droplet failing_exec_env sample_config resumed_world))
   = w_state resumed_world /\
   (done_droplet_setup (w_state resumed_world) = false ->
    done_droplet_setup
      (w_state (snd (setup_droplet failing_exec_env sample_config resumed_world)))
    = false)) /\
  ((exists e, fst (setup_kag failing_exec_env sample_config provisioned_world) = Raise e) /\
   w_state (snd (setup_kag failing_exec_env sample_config provisioned_world))
   = w_state provisioned_world /\
   (done_kag_setup (w_state provisioned_world) = false ->
    done_kag_setup
      (w_state (snd (setup_kag failing_exec_env sample_config provisioned_world)))
    = false)).
Proof.
  split.
  - apply (proj1 (failed_setup_sets_no_flag failing_exec_env sample_config resumed_world)).
    intros tr. exists ["error"], 1%Z. split; [reflexivity | discriminate].
  - apply (proj2 (failed_setup_sets_no_flag failing_exec_env sample_config provisioned_world)).
    intros tr. exists ["error"], 1%Z. split; [reflexivity | discriminate].
Defined.

(* ================================================================= *)
(** ** Following one run through a sequence *)


(** Either the first part returns and the sequence goes on from there, or
    the sequence does not return. *)
Lemma bind_split fp {A B} (m : M A) (f : A -> M B) w :
  within fp m ->
  (exists a w1, m w = (Ok a, w1) /\ changes fp w w1 /\ bind m f w = f a w1) \/
  ((forall b, fst (bind m f w) <> Ok b) /\ changes fp w (snd (bind m f w))).
Proof.
  intros Hm. pose proof (proj2 (Hm w)) as Hch. unfold bind.
  destruct (m w) as [[a | e |] w1]; simpl in *.
  - left. now exists a, w1.
  - right. split; [discriminate | exact Hch].
  - right. split; [discriminate | exact Hch].
Qed.





Ltac split_bind fp :=
  match goal with
  | |- context [bind ?m ?f ?w] =>
      let a := fresh "a" in
      let w1 := fresh "w" in
      let E := fresh "E" in
      let C := fresh "C" in
      let Hb := fresh "Hb" in
      let N := fresh "N" in
      destruct (bind_split fp m f w ltac:(within_auto))
        as [(a & w1 & E & C & Hb) | [N C]];
      [rewrite Hb; clear Hb |]
  end.

Section Sessions.

Variable env : Env.

















(* ================================================================= *)
(** ** run_command_down: the download comes first *)

Lemma external_trace {A} e (answer : list event -> exn + A) w :
  w_trace (snd (external env e answer w)) = w_trace w ++ [e].
Proof.
  unfold external, bind, log, read, lift. cbn.
  destruct (answer (w_trace w ++ [e])); reflexivity.
Qed.

Lemma the_droplet_pure w r w1 : the_droplet w = (r, w1) -> w1 = w.
Proof.
  unfold the_droplet, get_state, bind, read.
  destruct (droplet (w_state w)); intros H; now injection H.
Qed.

End Sessions.



(** The failing restart the claim names: [setup_kag] raises before its
    [ssh.close()], where [setup_droplet] closes before it raises. *)
Lemma setup_kag_failed_restart_leaves_session_open :
  fst (setup_kag failing_restart_env sample_config provisioned_world)
  = Raise (RuntimeError "Failed to setup KAG") /\
  w_sessions (snd (setup_kag failing_restart_env sample_config provisioned_world)) = [0] /\
  fst (setup_droplet failing_exec_env sample_config resumed_world)
  = Raise (RuntimeError "Droplet setup failed") /\
  w_sessions (snd (setup_droplet failing_exec_env sample_config resumed_world)) = [].
Proof. repeat split. Qed.

(** C8, on the sample world: the cache is listed and fetched, then the
    droplet is destroyed. *)
Lemma run_command_down_sample_trace :
  w_trace (snd (run_command_down sample_env sample_config running_world))
  = [ EvConnect "203.0.113.7"; EvSftpOpen 0; EvSftpListdir ["Cache"];
      EvSftpGet ["Cache"; "players.cfg"]; EvSftpListdir ["Cache"; "maps"];
      EvDropletDestroy ].
Proof. reflexivity. Qed.

(* ================================================================= *)
(** ** run_command_up: a run that returns has set every flag *)

(** Follow a run that returns to the last action of its sequence. *)
Ltac to_last_step H :=
  repeat first
    [ apply bind_ok_inv in H as (? & ? & _ & H)
    | match type of H with
      | (match ?x with _ => _ end) _ = _ => destruct x
      end ].

Section Flags.

Variable env : Env.

Lemma configure_ssh_key_sets_flag config w w1 :
  configure_ssh_key env config w = (Ok tt, w1) ->
  ssh_key_uploaded (w_state w1) = true.
Proof.
  unfold configure_ssh_key. intros H. to_last_step H.
  unfold modify_state in H. now injection H as <-.
Qed.

Lemma droplet_load_sets_handle w w1 :
  droplet_load env w = (Ok tt, w1) -> exists d, droplet (w_state w1) = Some d.
Proof.
  unfold droplet_load. intros H. to_last_step H.
  unfold modify_state in H. injection H as <-. cbn. eauto.
Qed.

Lemma setup_droplet_sets_flag config w w1 :
  setup_droplet env config w = (Ok tt, w1) ->
  done_droplet_setup (w_state w1) = true.
Proof.
  unfold setup_droplet. intros H. to_last_step H.
  unfold modify_state in H. now injection H as <-.
Qed.

Lemma setup_kag_sets_flag config w w1 :
  setup_kag env config w = (Ok tt, w1) ->
  done_kag_setup (w_state w1) = true.
Proof.
  unfold setup_kag. intros H. to_last_step H.
  unfold modify_state in H. now injection H as <-.
Qed.

Lemma run_command_up_sets_flags_aux fuel config w w1 :
  run_command_up env fuel config w = (Ok tt, w1) ->
  ssh_key_uploaded (w_state w1) = true /\
  (exists d, droplet (w_state w1) = Some d) /\
  done_droplet_setup (w_state w1) = true /\
  done_kag_setup (w_state w1) = true.
Proof.
  unfold run_command_up. intros H.
  apply bind_ok_inv in H as (st0 & wa & E0 & H).
  apply bind_ok_inv in H as ([] & wb & Ea & H).
  unfold get_state, read in E0. injection E0 as <- <-.
  assert (Hkey : ssh_key_uploaded (w_state wb) = true).
  { destruct (ssh_key_uploaded (w_state w)) eqn:E.
    - unfold ret in Ea. now injection Ea as <-.
    - eapply configure_ssh_key_sets_flag; eauto. }
  apply bind_ok_inv in H as (st1 & wc & E1 & H).
  apply bind_ok_inv in H as ([] & wd & Eb & H).
  apply (within_run fp_instance) in Eb;
    [| destruct (droplet st1); within_auto].
  unfold get_state, read in E1. injection E1 as <- <-.
  apply bind_ok_inv in H as ([] & we & Eload & H).
  pose proof (droplet_load_sets_handle _ _ Eload) as [d Hd].
  apply (within_run fp_instance) in Eload; [| within_auto].
  apply bind_ok_inv in H as (st2 & wf & E2 & H).
  unfold get_state, read in E2. injection E2 as <- <-.
  apply bind_ok_inv in H as ([] & wg & Ed & H).
  assert (Hhost : done_droplet_setup (w_state wg) = true).
  { destruct (done_droplet_setup (w_state we)) eqn:E.
    - unfold ret in Ed. now injection Ed as <-.
    - eapply setup_droplet_sets_flag; eauto. }
  assert (Cd : changes fp_setups we wg).
  { eapply within_run; [| exact Ed].
    destruct (done_droplet_setup (w_state we)); within_auto. }
  apply bind_ok_inv in H as (st3 & wh & E3 & H).
  unfold get_state, read in E3. injection E3 as <- <-.
  assert (Happ : done_kag_setup (w_state w1) = true).
  { destruct (done_kag_setup (w_state wg)) eqn:E.
    - unfold ret in H. now injection H as <-.
    - eapply setup_kag_sets_flag; eauto. }
  assert (Ce : changes fp_setups wg w1).
  { eapply within_run; [| exact H].
    destruct (done_kag_setup (w_state wg)); within_auto. }
  assert (Ce' : changes (fp_app any_call) wg w1).
  { eapply within_run; [| exact H].
    destruct (done_kag_setup (w_state wg)); within_auto. }
  destruct Ce' as (_ & _ & _ & He & _).
  destruct Eb as (_ & Kb & _).
  destruct Eload as (_ & Kl & _).
  destruct Cd as (_ & Kd & Dd & _).
  destruct Ce as (_ & Ke & De & _).
  split_all.
  - rewrite (Ke eq_refl), (Kd eq_refl), (Kl eq_refl), (Kb eq_refl). exact Hkey.
  - exists d. rewrite (De eq_refl), (Dd eq_refl). exact Hd.
  - rewrite (He eq_refl). exact Hhost.
  - exact Happ.
Qed.

(** X1. After [run_command_up] has returned, the key is uploaded, the droplet
    handle is set and both setups are done: the state is one in which a
    further [run_command_up] skips the steps (a) to (d). *)
Theorem run_command_up_sets_flags fuel config w w1 :
  run_command_up env fuel config w = (Ok tt, w1) ->
  ssh_key_uploaded (w_state w1) = true /\
  (exists d, droplet (w_state w1) = Some d) /\
  done_droplet_setup (w_state w1) = true /\
  done_kag_setup (w_state w1) = true.
Proof. apply run_command_up_sets_flags_aux. Qed.

End Flags.

Lemma run_command_up_sets_flags_witness :
  ssh_key_uploaded
    (w_state (snd (run_command_up sample_env 30 sample_config fresh_world))) = true /\
  (exists d,
     droplet (w_state (snd (run_command_up sample_env 30 sample_config fresh_world)))
     = Some d) /\
  done_droplet_setup
    (w_state (snd (run_command_up sample_env 30 sample_config fresh_world))) = true /\
  done_kag_setup
    (w_state (snd (run_command_up sample_env 30 sample_config fresh_world))) = true.
Proof.
  apply (run_command_up_sets_flags sample_env 30 sample_config fresh_world).
  vm_compute. reflexivity.
Defined.

(* ================================================================= *)
(** ** put_dir and get_recursive: the round trip *)


Section Mirror.

Variable env : Env.




(** *** Upload *)



(** *** Download *)





End Mirror.


(* ================================================================= *)
(** ** The steps of run_command_up, one by one *)

Section Gating.

Variable env : Env.

(** X2. Each of the steps (a), (b)-(c) and (d) of [run_command_up] is
    skipped on its own flag, whatever the other fields of the state are:
    with the key uploaded no key pair is generated and no key registered;
    with the droplet handle set no key is listed, no droplet created,
    nothing probed or slept for; with the host setup done no host-setup
    command is run. *)
Theorem run_command_up_gates_each_step fuel config w :
  (ssh_key_uploaded (w_state w) = true ->
   exists l,
     w_trace (snd (run_command_up env fuel config w)) = w_trace w ++ l /\
     forallb no_key_call l = true) /\
  (forall d,
      droplet (w_state w) = Some d ->
      exists l,
        w_trace (snd (run_command_up env fuel config w)) = w_trace w ++ l /\
        forallb no_instance_call l = true) /\
  (done_droplet_setup (w_state w) = true ->
   exists l,
     w_trace (snd (run_command_up env fuel config w)) = w_trace w ++ l /\
     forallb no_host_setup_call l = true).
Proof.
  split_all.
  - intros Hkey.
    apply (changes_trace (fp_any no_key_call)).
    unfold run_command_up, get_state.
    apply changes_bind_read. rewrite Hkey.
    apply changes_within. within_auto.
  - intros d Hd.
    apply (changes_trace (fp_any no_instance_call)).
    unfold run_command_up, get_state.
    apply changes_bind_read.
    apply (changes_bind_le (fp_key no_instance_call)); [within_auto | fp_le_tac |].
    intros [] w1 _ Hch.
    apply changes_bind_read.
    destruct Hch as (_ & _ & Hdroplet & _). rewrite (Hdroplet eq_refl), Hd.
    apply changes_within. within_auto.
  - intros Hdone.
    apply (changes_trace (fp_any no_host_setup_call)).
    unfold run_command_up, get_state.
    apply changes_bind_read.
    apply (changes_bind_le (fp_abc no_host_setup_call)); [within_auto | fp_le_tac |].
    intros [] w1 _ C1.
    apply changes_bind_read.
    apply (changes_bind_le (fp_abc no_host_setup_call));
      [destruct (droplet (w_state w1)); within_auto | fp_le_tac |].
    intros [] w2 _ C2.
    apply (changes_bind_le (fp_abc no_host_setup_call)); [within_auto | fp_le_tac |].
    intros [] w3 _ C3.
    apply changes_bind_read.
    destruct C1 as (_ & _ & _ & H1 & _).
    destruct C2 as (_ & _ & _ & H2 & _).
    destruct C3 as (_ & _ & _ & H3 & _).
    rewrite (H3 eq_refl), (H2 eq_refl), (H1 eq_refl), Hdone.
    apply changes_within. within_auto.
Qed.

End Gating.

Lemma run_command_up_gates_each_step_witness :
  (exists l,
      w_trace (snd (run_command_up sample_env 30 sample_config resumed_world))
      = w_trace resumed_world ++ l /\
      forallb no_key_call l = true) /\
  (exists l,
      w_trace (snd (run_command_up sample_env 30 sample_config resumed_world))
      = w_trace resumed_world ++ l /\
      forallb no_instance_call l = true) /\
  (exists l,
      w_trace (snd (run_command_up sample_env 30 sample_config provisioned_world))
      = w_trace provisioned_world ++ l /\
      forallb no_host_setup_call l = true).
Proof.
  split_all.
  - apply (proj1 (run_command_up_gates_each_step sample_env 30 sample_config
                    resumed_world)).
    reflexivity.
  - apply (proj1 (proj2 (run_command_up_gates_each_step sample_env 30
                           sample_config resumed_world)) sample_droplet).
    reflexivity.
  - apply (proj2 (proj2 (run_command_up_gates_each_step sample_env 30
                           sample_config provisioned_world))).
    reflexivity.
Defined.

(* ================================================================= *)
(** ** A step that raises has not marked itself done *)

Section StepsRaise.

Variable env : Env.

Lemma configure_ssh_key_raises config :
  raises_within fp_key_name_only (configure_ssh_key env config).
Proof. unfold configure_ssh_key. repeat raises_step. Qed.

Lemma create_droplet_raises config :
  raises_within (fp_io any_call) (create_droplet env config).
Proof. unfold create_droplet. repeat raises_step. Qed.

Lemma setup_droplet_raises config :
  raises_within (fp_io any_call) (setup_droplet env config).
Proof. unfold setup_droplet. repeat raises_step. Qed.

Lemma setup_kag_raises config :
  raises_within (fp_io any_call) (setup_kag env config).
Proof. unfold setup_kag. repeat raises_step. Qed.

Lemma open_ssh_connection_raises :
  raises_within (fp_no_session any_call) (open_ssh_connection env).
Proof. unfold open_ssh_connection, ssh_connect. repeat raises_step. Qed.

(** X4. Each of the four steps assigns its field of the state as its last
    action: when [configure_ssh_key] raises, for whatever reason,
    [ssh_key_uploaded] is as before (only the name of the key may have
    been set); when [create_droplet], [setup_droplet] or [setup_kag]
    raises, the state object is as before. *)
Theorem a_step_that_raises_sets_no_flag config w e :
  (fst (configure_ssh_key env config w) = Raise e ->
   ssh_key_uploaded (w_state (snd (configure_ssh_key env config w)))
   = ssh_key_uploaded (w_state w) /\
   droplet (w_state (snd (configure_ssh_key env config w))) = droplet (w_state w)) /\
  (fst (create_droplet env config w) = Raise e ->
   w_state (snd (create_droplet env config w)) = w_state w) /\
  (fst (setup_droplet env config w) = Raise e ->
   w_state (snd (setup_droplet env config w)) = w_state w) /\
  (fst (setup_kag env config w) = Raise e ->
   w_state (snd (setup_kag env config w)) = w_state w).
Proof.
  split_all; intros H.
  - destruct (configure_ssh_key_raises config w e H) as (_ & Hu & Hd & _). auto.
  - exact (changes_keeps_state _ _ _ (create_droplet_raises config w e H)).
  - exact (changes_keeps_state _ _ _ (setup_droplet_raises config w e H)).
  - exact (changes_keeps_state _ _ _ (setup_kag_raises config w e H)).
Qed.

(** X7. [open_ssh_connection] opens a session only when it returns: when
    it raises (no key name, no key file, no droplet, a refused
    connection), the open sessions are the ones there were. *)
Theorem open_ssh_connection_raising_opens_nothing w e :
  fst (open_ssh_connection env w) = Raise e ->
  w_sessions (snd (open_ssh_connection env w)) = w_sessions w /\
  w_next_session (snd (open_ssh_connection env w)) = w_next_session w.
Proof.
  intros H.
  destruct (open_ssh_connection_raises w e H)
    as (_ & _ & _ & _ & _ & _ & _ & _ & Hs & _).
  exact (Hs eq_refl).
Qed.

End StepsRaise.

Lemma a_step_that_raises_sets_no_flag_witness :
  w_state (snd (setup_droplet failing_exec_env sample_config resumed_world))
  = w_state resumed_world /\
  w_state (snd (create_droplet sample_env sample_config fresh_world))
  = w_state fresh_world.
Proof.
  split.
  - apply (proj1 (proj2 (proj2
             (a_step_that_raises_sets_no_flag failing_exec_env sample_config
                resumed_world (RuntimeError "Droplet setup failed"))))).
    reflexivity.
  - apply (proj1 (proj2
             (a_step_that_raises_sets_no_flag sample_env sample_config
                fresh_world (RuntimeError "No ssh key configured yet")))).
    reflexivity.
Defined.

Lemma open_ssh_connection_raising_opens_nothing_witness :
  w_sessions (snd (open_ssh_connection sample_env fresh_world))
  = w_sessions fresh_world /\
  w_next_session (snd (open_ssh_connection sample_env fresh_world))
  = w_next_session fresh_world.
Proof.
  apply (open_ssh_connection_raising_opens_nothing sample_env fresh_world
           (TypeError "unsupported operand type(s) for /")).
  reflexivity.
Defined.

(* ================================================================= *)
(** ** The retry loop: what comes out of it *)

Section RetryOutcome.

Context {A : Type}.
Variable fn : M A.

Lemma retry_loop_outcome fuel wait stop start k w r w' :
  retry_loop fuel wait stop start k fn w = (r, w') ->
  match r with
  | Ok a => exists w0, fn w0 = (Ok a, w')
  | Raise x =>
      exists n e w0,
        x = RetryError n e /\ k <= n /\ fn w0 = (Raise e, w') /\
        (stop * 1000 <= w_clock w' - start)%Z
  | OutOfFuel => True
  end.
Proof.
  revert k w. induction fuel as [| fuel IH]; intros k w; simpl.
  - intros H. now injection H as <- <-.
  - destruct (fn w) as [[a | e |] w1] eqn:E.
    + intros H. injection H as <- <-. now exists w.
    + destruct (stop * 1000 <=? w_clock w1 - start)%Z eqn:Hstop.
      * intros H. injection H as <- <-. apply Z.leb_le in Hstop.
        exists k, e, w. auto.
      * unfold bind, sleep. intros H. apply IH in H.
        destruct r as [a | x |]; auto.
        destruct H as (n & e' & w0 & -> & Hn & Hfn & Hclock).
        exists n, e', w0. split_all; auto. lia.
    + intros H. now injection H as <- <-.
Qed.

End RetryOutcome.

(** X6. Whatever the retried function does, [retry] returns only what an
    attempt returned, and raises only [RetryError]: this carries the
    exception of the last attempt, and it is raised when the time since
    the start has reached the delay, not before. *)
Theorem retry_gives_up_only_after_the_delay {A} (fn : M A) wait stop fuel w r w' :
  retry wait stop fuel fn w = (r, w') ->
  match r with
  | Ok a => exists w0, fn w0 = (Ok a, w')
  | Raise x =>
      exists n e w0,
        x = RetryError n e /\ 1 <= n /\ fn w0 = (Raise e, w') /\
        (stop * 1000 <= w_clock w' - w_clock w)%Z
  | OutOfFuel => True
  end.
Proof.
  unfold retry, bind, read. apply retry_loop_outcome.
Qed.

Lemma retry_gives_up_only_after_the_delay_witness :
  exists n e w0,
    RetryError 25 (ValueError "Droplet is not active yet") = RetryError n e /\
    1 <= n /\
    wait_for_droplet_to_be_active_once never_active_env w0
    = (Raise e,
       snd (wait_for_droplet_to_be_active never_active_env 100 resumed_world)) /\
    (120 * 1000
     <= w_clock (snd (wait_for_droplet_to_be_active never_active_env 100 resumed_world))
        - w_clock resumed_world)%Z.
Proof.
  apply (retry_gives_up_only_after_the_delay
           (wait_for_droplet_to_be_active_once never_active_env) 5 120 100
           resumed_world
           (Raise (RetryError 25 (ValueError "Droplet is not active yet")))
           (snd (wait_for_droplet_to_be_active never_active_env 100 resumed_world))).
  vm_compute. reflexivity.
Defined.

Section WaitOutcome.

Variable env : Env.



End WaitOutcome.


(* ================================================================= *)
(** ** check_config and main: what is checked, what is saved *)

Section ReadsOnly.

Lemma reads_only_ret {A} (a : A) : reads_only (ret a).
Proof. now intros w. Qed.

Lemma reads_only_raise {A} e : reads_only (@raise A e).
Proof. now intros w. Qed.

Lemma reads_only_lift {A} (r : exn + A) : reads_only (lift r).
Proof. destruct r; now intros w. Qed.

Lemma reads_only_raise_if c e : reads_only (raise_if c e).
Proof. destruct c; now intros w. Qed.

Lemma reads_only_read {A} (g : World -> A) : reads_only (read g).
Proof. now intros w. Qed.

Lemma reads_only_bind {A B} (m : M A) (f : A -> M B) :
  reads_only m -> (forall a, reads_only (f a)) -> reads_only (bind m f).
Proof.
  intros Hm Hf w. unfold bind. specialize (Hm w).
  destruct (m w) as [[a | e |] w1]; simpl in *; subst; auto. apply Hf.
Qed.

Lemma reads_only_for_each {A} (body : A -> M unit) l :
  (forall a, reads_only (body a)) -> reads_only (for_each body l).
Proof.
  intros Hb. induction l as [| a l IH]; simpl.
  - apply reads_only_ret.
  - apply reads_only_bind; auto.
Qed.

End ReadsOnly.

Section CheckConfig.

Variable env : Env.

(** [check_config] looks and does not touch. *)
Lemma check_config_reads_only config : reads_only (check_config env config).
Proof.
  unfold check_config.
  repeat first
    [ apply reads_only_bind; [| intros ?]
    | apply reads_only_lift | apply reads_only_raise_if
    | apply reads_only_for_each; intros ?
    | apply reads_only_read ].
Qed.



End CheckConfig.


Section Main.

Variable env : Env.

(** [main] up to its [try] block. *)
Lemma main_reaches_the_command fuel cmd config w :
  w_config_file w = Some config ->
  fst (check_config env config (loaded w)) = Ok tt ->
  main env fuel cmd w
  = try_finally (run_command env fuel cmd config) (log env EvChdir ;; State_save env)
      (loaded w).
Proof.
  intros Hcfg Hcheck.
  unfold main, bind at 1. unfold read at 1. rewrite Hcfg.
  unfold State_load, bind at 1. unfold bind at 1. unfold read at 1.
  unfold modify_state at 1. unfold bind at 1. unfold modify_state at 1.
  change (upd_state (set_done_kag_setup false)
            (upd_state (fun _ => match w_state_file w with
                                 | Some s => s
                                 | None => State_init
                                 end) w)) with (loaded w).
  unfold bind at 1.
  pose proof (check_config_reads_only env config (loaded w)) as Hpure.
  destruct (check_config env config (loaded w)) as [[[] | e |] w0];
    simpl in Hcheck, Hpure; try discriminate.
  subst w0. reflexivity.
Qed.

(** The [finally] block saves the state object as the command left it. *)
Lemma main_saves fuel cmd config w r w' :
  w_config_file w = Some config ->
  fst (check_config env config (loaded w)) = Ok tt ->
  main env fuel cmd w = (r, w') ->
  r <> OutOfFuel ->
  fst (run_command env fuel cmd config (loaded w)) = r /\
  w_state_file w' = Some (w_state (snd (run_command env fuel cmd config (loaded w)))).
Proof.
  intros Hcfg Hcheck Hmain Hr.
  rewrite (main_reaches_the_command fuel cmd config w Hcfg Hcheck) in Hmain.
  unfold try_finally in Hmain.
  destruct (run_command env fuel cmd config (loaded w)) as [[[] | e |] w1];
    cbn in Hmain; injection Hmain as <- <-; try congruence; auto.
Qed.

(** X9. An error of the configuration is raised before the [try] block:
    without a configuration file, or with one that [check_config] rejects,
    [main] raises, makes no call and does not write the state file. *)
Theorem main_config_error_saves_nothing fuel cmd w :
  (w_config_file w = None ->
   main env fuel cmd w = (Raise (RuntimeError "Config file does not exist"), w)) /\
  (forall config e,
     w_config_file w = Some config ->
     fst (check_config env config (loaded w)) = Raise e ->
     fst (main env fuel cmd w) = Raise e /\
     w_state_file (snd (main env fuel cmd w)) = w_state_file w /\
     w_trace (snd (main env fuel cmd w)) = w_trace w /\
     w_local (snd (main env fuel cmd w)) = w_local w /\
     w_remote (snd (main env fuel cmd w)) = w_remote w).
Proof.
  split.
  - intros Hcfg. unfold main, bind, read. now rewrite Hcfg.
  - intros config e Hcfg Hcheck.
    assert (H : main env fuel cmd w = (Raise e, loaded w)).
    { unfold main, bind at 1. unfold read at 1. rewrite Hcfg.
      unfold State_load, bind at 1. unfold bind at 1. unfold read at 1.
      unfold modify_state at 1. unfold bind at 1. unfold modify_state at 1.
      change (upd_state (set_done_kag_setup false)
                (upd_state (fun _ => match w_state_file w with
                                     | Some s => s
                                     | None => State_init
                                     end) w)) with (loaded w).
      unfold bind at 1.
      pose proof (check_config_reads_only env config (loaded w)) as Hpure.
      destruct (check_config env config (loaded w)) as [[[] | e' |] w0];
        simpl in Hcheck, Hpure; try discriminate.
      subst w0. congruence. }
    rewrite H. split_all; reflexivity.
Qed.

Lemma session_commands_keep_state fuel cmd config :
  cmd = Down \/ cmd = KagLogs \/ cmd = Ssh \/ cmd = Rcon ->
  forall w,
    fst (run_command env fuel cmd config w) <> OutOfFuel /\
    (cmd = Down -> fst (run_command env fuel cmd config w) = Ok tt ->
     w_state (snd (run_command env fuel cmd config w)) = State_init) /\
    (cmd <> Down \/ fst (run_command env fuel cmd config w) <> Ok tt ->
     w_state (snd (run_command env fuel cmd config w)) = w_state w).
Proof.
  intros Hcmd w.
  assert (Hio : forall m : M unit, within (fp_io any_call) m ->
            fst (m w) <> OutOfFuel /\ w_state (snd (m w)) = w_state w).
  { intros m Hm. destruct (Hm w) as [Hf Hc]. split; [now apply Hf |].
    now apply (changes_keeps_state any_call). }
  destruct Hcmd as [-> | [-> | [-> | ->]]]; cbn [run_command].
  - assert (Hd : within (fp_io any_call) (run_command_down env config))
      by within_auto.
    destruct (Hio _ Hd) as [Hf Hs]. unfold bind.
    destruct (run_command_down env config w) as [[[] | e |] w1]; cbn in *.
    + split_all; [discriminate | reflexivity | intros [H | H]; congruence].
    + split_all; [discriminate | discriminate | intros _; exact Hs].
    + congruence.
  - destruct (Hio (follow_kag_logs env)) as [Hf Hs]; [within_auto |].
    split_all; [assumption | discriminate | auto].
  - destruct (Hio (exec_ssh env)) as [Hf Hs]; [within_auto |].
    split_all; [assumption | discriminate | auto].
  - destruct (Hio (run_command_rcon env config)) as [Hf Hs]; [within_auto |].
    split_all; [assumption | discriminate | auto].
Qed.

(** X10. The commands [down], [kag-logs], [ssh] and [rcon] assign no
    field of the state object; what [main] saves after them is the state
    it loaded, with [done_kag_setup] reset, unless it is [down] and it
    returned: then the saved state is a fresh one. *)
Theorem main_saves_the_loaded_state_after_session_commands
  fuel cmd config w r w' :
  cmd = Down \/ cmd = KagLogs \/ cmd = Ssh \/ cmd = Rcon ->
  w_config_file w = Some config ->
  fst (check_config env config (loaded w)) = Ok tt ->
  main env fuel cmd w = (r, w') ->
  (cmd = Down -> r = Ok tt -> w_state_file w' = Some State_init) /\
  (cmd <> Down \/ r <> Ok tt -> w_state_file w' = Some (w_state (loaded w))).
Proof.
  intros Hcmd Hcfg Hcheck Hmain.
  destruct (session_commands_keep_state fuel cmd config Hcmd (loaded w))
    as (Hfuel & Hreset & Hkeep).
  assert (Hr : r <> OutOfFuel).
  { rewrite (main_reaches_the_command fuel cmd config w Hcfg Hcheck) in Hmain.
    unfold try_finally in Hmain.
    destruct (run_command env fuel cmd config (loaded w)) as [[[] | e |] w1];
      cbn in Hmain, Hfuel; injection Hmain as <- <-; congruence. }
  destruct (main_saves fuel cmd config w r w' Hcfg Hcheck Hmain Hr) as [Hfst Hfile].
  rewrite Hfile. rewrite Hfst in Hreset, Hkeep. split.
  - intros Hd Hok. now rewrite Hreset.
  - intros Hnot. now rewrite Hkeep.
Qed.

End Main.

(* ================================================================= *)
(** ** Progress is recorded, and never taken back *)

Lemma main_config_error_saves_nothing_witness :
  main sample_env 30 Up (with_config_file None fresh_world)
  = (Raise (RuntimeError "Config file does not exist"),
     with_config_file None fresh_world) /\
  fst (main sample_env 30 Up (with_config_file (Some config_without_mods) served_world))
  = Raise (TypeError "object is not iterable") /\
  w_state_file
    (snd (main sample_env 30 Up (with_config_file (Some config_without_mods) served_world)))
  = Some served_state.
Proof.
  split.
  - apply (proj1 (main_config_error_saves_nothing sample_env 30 Up
                    (with_config_file None fresh_world))).
    reflexivity.
  - destruct (proj2 (main_config_error_saves_nothing sample_env 30 Up
                       (with_config_file (Some config_without_mods) served_world))
                config_without_mods (TypeError "object is not iterable")
                eq_refl eq_refl) as (H1 & H2 & _).
    split; [exact H1 | exact H2].
Defined.

Lemma main_saves_the_loaded_state_after_session_commands_witness :
  (Down = Down -> Ok tt = Ok tt ->
   w_state_file (snd (main sample_env 30 Down served_world)) = Some State_init) /\
  (Down <> Down \/ Ok tt <> Ok tt ->
   w_state_file (snd (main sample_env 30 Down served_world))
   = Some (w_state (loaded served_world))).
Proof.
  apply (main_saves_the_loaded_state_after_session_commands sample_env 30 Down
           sample_config served_world (Ok tt)
           (snd (main sample_env 30 Down served_world))).
  - left. reflexivity.
  - reflexivity.
  - reflexivity.
  - vm_compute. reflexivity.
Defined.

Section Progress.

Variable env : Env.

Lemma raises_within_weaken fp1 fp2 {A} (m : M A) :
  fp_le fp1 fp2 -> raises_within fp1 m -> raises_within fp2 m.
Proof.
  intros Hle Hm w e He. eapply changes_weaken; [exact Hle |]. exact (Hm w e He).
Qed.

(** When [run_command_up] raises, [done_kag_setup] is as it was. *)
Lemma run_command_up_raises fuel config :
  raises_within fp_keep_app (run_command_up env fuel config).
Proof.
  unfold run_command_up, get_state.
  apply raises_within_bind; [within_auto | intros st1].
  apply raises_within_bind;
    [destruct (ssh_key_uploaded st1); within_auto | intros _].
  apply raises_within_bind; [within_auto | intros st2].
  apply raises_within_bind; [destruct (droplet st2); within_auto | intros _].
  apply raises_within_bind; [within_auto | intros _].
  apply raises_within_bind; [within_auto | intros st3].
  apply raises_within_bind;
    [destruct (done_droplet_setup st3); within_auto | intros _].
  apply raises_within_bind; [within_auto | intros st4].
  destruct (done_kag_setup st4).
  - apply raises_within_never. intros w. now exists tt.
  - apply (raises_within_weaken (fp_io any_call)); [fp_le_tac |].
    apply setup_kag_raises.
Qed.

Lemma run_command_up_done fuel config w w1 :
  run_command_up env fuel config w = (Ok tt, w1) ->
  has_droplet w1 /\ done_kag_setup (w_state w1) = true.
Proof.
  intros H.
  destruct (run_command_up_sets_flags_aux env fuel config w w1 H)
    as (_ & Hd & _ & Hk).
  split; assumption.
Qed.

(** The flag [done_kag_setup] after the [try] block of [main]. *)
Lemma run_command_kag_flag fuel cmd config w :
  25 <= fuel ->
  done_kag_setup (w_state w) = false ->
  (done_kag_setup (w_state (snd (run_command env fuel cmd config w))) = true <->
   runs_setup_kag cmd = true /\ fst (run_command env fuel cmd config w) = Ok tt).
Proof.
  intros Hfuel Hflag.
  assert (Hraise : forall (m : M unit) e,
             raises_within fp_keep_app m -> fst (m w) = Raise e ->
             done_kag_setup (w_state (snd (m w))) = false).
  { intros m e Hm He. destruct (Hm w e He) as (_ & _ & _ & _ & Happ & _).
    now rewrite (Happ eq_refl). }
  pose proof (proj1 (run_command_total env fuel cmd config Hfuel w)) as Htotal.
  destruct cmd; cbn [run_command runs_setup_kag] in *.
  - (* up *)
    set (m := run_command_up env fuel config) in *.
    unfold bind, the_droplet, get_state, read in *.
    destruct (m w) as [[[] | e |] w1] eqn:E; subst m.
    + destruct (run_command_up_done fuel config w w1 E) as [[d Hd] Hk].
      unfold bind. cbn. rewrite Hd. cbn. split; auto.
    + cbn. pose proof (Hraise (run_command_up env fuel config) e
                         (run_command_up_raises fuel config)) as H.
      rewrite E in H. cbn in H. rewrite (H eq_refl).
      split; [discriminate | intros [_ H']; discriminate].
    + cbn in Htotal. now destruct (Htotal eq_refl).
  - (* down *)
    destruct (session_commands_keep_state env fuel Down config
                (or_introl eq_refl) w) as (_ & Hreset & Hkeep).
    cbn [run_command] in Hreset, Hkeep.
    split; [| intros [H _]; discriminate].
    intros H. exfalso.
    match type of Hreset with
    | _ -> ?x = _ -> _ => destruct x as [[] | e |] eqn:E
    end.
    + rewrite (Hreset eq_refl eq_refl) in H. discriminate.
    + rewrite Hkeep in H; [congruence | right; discriminate].
    + rewrite Hkeep in H; [congruence | right; discriminate].
  - (* kag-logs *)
    destruct (session_commands_keep_state env fuel KagLogs config
                (or_intror (or_introl eq_refl)) w) as (_ & _ & Hkeep).
    cbn [run_command] in Hkeep.
    split; [| intros [H _]; discriminate].
    rewrite Hkeep; [congruence | left; discriminate].
  - (* restart-kag *)
    destruct (setup_kag env config w) as [[[] | e |] w1] eqn:E; cbn.
    + rewrite (setup_kag_sets_flag env config w w1 E). split; auto.
    + pose proof (Hraise (setup_kag env config) e) as H.
      rewrite E in H. cbn in H. rewrite H; auto.
      * split; [discriminate | intros [_ H']; discriminate].
      * apply (raises_within_weaken (fp_io any_call)); [fp_le_tac |].
        apply setup_kag_raises.
    + cbn in Htotal. now destruct (Htotal eq_refl).
  - (* ssh *)
    destruct (session_commands_keep_state env fuel Ssh config
                (or_intror (or_intror (or_introl eq_refl))) w) as (_ & _ & Hkeep).
    cbn [run_command] in Hkeep.
    split; [| intros [H _]; discriminate].
    rewrite Hkeep; [congruence | left; discriminate].
  - (* rcon *)
    destruct (session_commands_keep_state env fuel Rcon config
                (or_intror (or_intror (or_intror eq_refl))) w) as (_ & _ & Hkeep).
    cbn [run_command] in Hkeep.
    split; [| intros [H _]; discriminate].
    rewrite Hkeep; [congruence | left; discriminate].
Qed.

(** X11. Past the checks of the configuration, the state file [main]
    leaves has [done_kag_setup] set exactly when the command was [up] or
    [restart-kag] and it returned: the flag is reset on every run, so any
    other command, and any failure, leaves it unset for the next [up]. *)
Theorem main_records_kag_setup_only_when_done fuel cmd config w r w' :
  25 <= fuel ->
  w_config_file w = Some config ->
  fst (check_config env config (loaded w)) = Ok tt ->
  main env fuel cmd w = (r, w') ->
  exists s,
    w_state_file w' = Some s /\
    (done_kag_setup s = true <-> runs_setup_kag cmd = true /\ r = Ok tt).
Proof.
  intros Hfuel Hcfg Hcheck Hmain.
  assert (Hr : r <> OutOfFuel).
  { pose proof (proj1 (run_command_total env fuel cmd config Hfuel (loaded w)))
      as Htotal.
    rewrite (main_reaches_the_command env fuel cmd config w Hcfg Hcheck) in Hmain.
    unfold try_finally in Hmain.
    destruct (run_command env fuel cmd config (loaded w)) as [[[] | e |] w1];
      cbn in Hmain, Htotal; injection Hmain as <- <-;
      try discriminate.
    now destruct (Htotal eq_refl). }
  destruct (main_saves env fuel cmd config w r w' Hcfg Hcheck Hmain Hr)
    as [Hfst Hfile].
  eexists. split; [exact Hfile |].
  rewrite <- Hfst. apply run_command_kag_flag; [exact Hfuel | reflexivity].
Qed.

(** An action that keeps the droplet handle set once it is. *)
Lemma keeps_handle_within fp {A} (m : M A) w :
  fp_droplet fp = false -> within fp m -> has_droplet w -> has_droplet (snd (m w)).
Proof.
  intros Hfp Hm [d Hd]. destruct (proj2 (Hm w)) as (_ & _ & H & _).
  exists d. now rewrite (H Hfp).
Qed.

Lemma droplet_load_keeps_handle w :
  has_droplet w -> has_droplet (snd (droplet_load env w)).
Proof.
  intros Hw.
  destruct (droplet_load env w) as [[[] | e |] w1] eqn:E; cbn.
  - eapply droplet_load_sets_handle; eauto.
  - assert (H : raises_within (fp_io any_call) (droplet_load env)).
    { unfold droplet_load. repeat raises_step. }
    specialize (H w e). rewrite E in H. specialize (H eq_refl). cbn in H.
    destruct Hw as [d Hd]. exists d.
    now rewrite (changes_keeps_state _ _ _ H).
  - assert (H : within (fp_app any_call) (droplet_load env)) by within_auto.
    destruct (H w) as [Hf _]. rewrite E in Hf. now destruct (Hf eq_refl).
Qed.

(** X3. [run_command_up] takes no progress back, however it ends (by
    returning, by raising, or in the middle of the wait): an uploaded key
    stays uploaded under the same name, a droplet handle stays set, and
    each setup that was done stays done. *)
Theorem run_command_up_keeps_what_is_done fuel config w :
  (ssh_key_uploaded (w_state w) = true ->
   ssh_key_uploaded (w_state (snd (run_command_up env fuel config w))) = true /\
   ssh_key_name (w_state (snd (run_command_up env fuel config w)))
   = ssh_key_name (w_state w)) /\
  (has_droplet w -> has_droplet (snd (run_command_up env fuel config w))) /\
  (done_droplet_setup (w_state w) = true ->
   done_droplet_setup (w_state (snd (run_command_up env fuel config w))) = true) /\
  (done_kag_setup (w_state w) = true ->
   done_kag_setup (w_state (snd (run_command_up env fuel config w))) = true).
Proof.
  split_all.
  - intros Hkey.
    assert (H : changes fp_keep_key w (snd (run_command_up env fuel config w))).
    { unfold run_command_up, get_state.
      apply changes_bind_read. rewrite Hkey.
      apply changes_within. within_auto. }
    destruct H as (Hn & Hu & _).
    rewrite (Hu eq_refl), (Hn eq_refl). auto.
  - intros Hw.
    unfold run_command_up, get_state.
    unfold bind at 1. unfold read at 1.
    unfold bind at 1.
    assert (H1 : has_droplet
                   (snd ((if ssh_key_uploaded (w_state w) then ret tt
                          else configure_ssh_key env config) w))).
    { apply (keeps_handle_within (fp_key any_call)); auto.
      destruct (ssh_key_uploaded (w_state w)); within_auto. }
    destruct ((if ssh_key_uploaded (w_state w) then ret tt
               else configure_ssh_key env config) w) as [[[] | e |] w1];
      cbn [snd] in *; auto.
    unfold bind at 1. unfold read at 1.
    destruct H1 as [d Hd]. rewrite Hd.
    unfold bind at 1. unfold ret at 1.
    unfold bind at 1.
    pose proof (droplet_load_keeps_handle w1 (ex_intro _ d Hd)) as H2.
    destruct (droplet_load env w1) as [[[] | e |] w2]; cbn [snd] in *; auto.
    apply (keeps_handle_within fp_setups); auto.
    within_auto.
  - intros Hdone.
    assert (H : changes fp_keep_host w (snd (run_command_up env fuel config w))).
    { unfold run_command_up, get_state.
      apply changes_bind_read.
      apply (changes_bind_le (fp_abc any_call)); [within_auto | fp_le_tac |].
      intros [] w1 _ C1.
      apply changes_bind_read.
      apply (changes_bind_le (fp_abc any_call));
        [destruct (droplet (w_state w1)); within_auto | fp_le_tac |].
      intros [] w2 _ C2.
      apply (changes_bind_le (fp_abc any_call)); [within_auto | fp_le_tac |].
      intros [] w3 _ C3.
      apply changes_bind_read.
      destruct C1 as (_ & _ & _ & H1 & _).
      destruct C2 as (_ & _ & _ & H2 & _).
      destruct C3 as (_ & _ & _ & H3 & _).
      rewrite (H3 eq_refl), (H2 eq_refl), (H1 eq_refl), Hdone.
      apply changes_within. within_auto. }
    destruct H as (_ & _ & _ & Hh & _). now rewrite (Hh eq_refl).
  - intros Hdone.
    assert (H : changes fp_keep_app w (snd (run_command_up env fuel config w))).
    { unfold run_command_up, get_state.
      apply changes_bind_read.
      apply (changes_bind_le (fp_abc any_call)); [within_auto | fp_le_tac |].
      intros [] w1 _ C1.
      apply changes_bind_read.
      apply (changes_bind_le (fp_abc any_call));
        [destruct (droplet (w_state w1)); within_auto | fp_le_tac |].
      intros [] w2 _ C2.
      apply (changes_bind_le (fp_abc any_call)); [within_auto | fp_le_tac |].
      intros [] w3 _ C3.
      apply changes_bind_read.
      apply changes_bind;
        [destruct (done_droplet_setup (w_state w3)); within_auto |].
      intros [] w4 _ C4.
      apply changes_bind_read.
      destruct C1 as (_ & _ & _ & _ & H1 & _).
      destruct C2 as (_ & _ & _ & _ & H2 & _).
      destruct C3 as (_ & _ & _ & _ & H3 & _).
      destruct C4 as (_ & _ & _ & _ & H4 & _).
      rewrite (H4 eq_refl), (H3 eq_refl), (H2 eq_refl), (H1 eq_refl), Hdone.
      apply changes_within. within_auto. }
    destruct H as (_ & _ & _ & _ & Ha & _). now rewrite (Ha eq_refl).
Qed.

End Progress.

Lemma main_records_kag_setup_only_when_done_witness :
  exists s,
    w_state_file (snd (main sample_env 30 KagLogs served_world)) = Some s /\
    (done_kag_setup s = true <->
     runs_setup_kag KagLogs = true /\ Ok tt = Ok tt).
Proof.
  apply (main_records_kag_setup_only_when_done sample_env 30 KagLogs sample_config
           served_world (Ok tt) (snd (main sample_env 30 KagLogs served_world))).
  - lia.
  - reflexivity.
  - reflexivity.
  - vm_compute. reflexivity.
Defined.

Lemma run_command_up_keeps_what_is_done_witness :
  fst (run_command_up failing_exec_env 30 sample_config resumed_world)
  = Raise (RuntimeError "Droplet setup failed") /\
  ssh_key_uploaded
    (w_state (snd (run_command_up failing_exec_env 30 sample_config resumed_world)))
  = true /\
  ssh_key_name
    (w_state (snd (run_command_up failing_exec_env 30 sample_config resumed_world)))
  = ssh_key_name (w_state resumed_world).
Proof.
  split; [vm_compute; reflexivity |].
  apply (proj1 (run_command_up_keeps_what_is_done failing_exec_env 30
                  sample_config resumed_world)).
  reflexivity.
Defined.

(* ================================================================= *)
(** ** Writing at one path leaves the diverging paths alone *)

Lemma find_entry_set_entry_other x y v es :
  String.eqb y x = false -> find_entry y (set_entry x v es) = find_entry y es.
Proof.
  intros Hne. induction es as [| [n c] es IH]; simpl.
  - now rewrite Hne.
  - destruct (String.eqb x n) eqn:E; simpl.
    + apply String.eqb_eq in E. subst n. now rewrite Hne.
    + now rewrite IH.
Qed.

Lemma find_entry_In x c es : find_entry x es = Some c -> In (x, c) es.
Proof.
  induction es as [| [n d] es IH]; simpl; [discriminate |].
  destruct (String.eqb_spec x n) as [-> | Hne].
  - intros H. injection H as ->. now left.
  - intros H. right. now apply IH.
Qed.

Lemma diverge_app p r s : diverge p r = true -> diverge (p ++ s) r = true.
Proof.
  revert r. induction p as [| a p IH]; intros r; simpl; [discriminate |].
  destruct r as [| b r]; [discriminate |].
  destruct (String.eqb a b); auto.
Qed.

Lemma diverge_siblings t x y q :
  x <> y -> diverge (t ++ [x]) (t ++ y :: q) = true.
Proof.
  intros Hne. induction t as [| a t IH]; simpl.
  - destruct (String.eqb_spec x y); [contradiction | reflexivity].
  - now rewrite String.eqb_refl.
Qed.

Lemma lookup_put_node_diverge p : forall n v n1 r,
  put_node n p v = Some n1 -> diverge p r = true -> lookup n1 r = lookup n r.
Proof.
  induction p as [| a p IH]; intros n v n1 r; simpl; [discriminate |].
  destruct n as [c | es]; [discriminate |].
  destruct r as [| b r]; [discriminate |].
  destruct (find_entry a es) as [c |] eqn:E.
  - destruct (put_node c p v) as [c' |] eqn:Hc; [| discriminate].
    intros H. injection H as <-. simpl.
    destruct (String.eqb a b) eqn:Hab.
    + apply String.eqb_eq in Hab. subst b.
      rewrite find_entry_set_entry, E. intros Hd. now apply (IH c v).
    + intros _. rewrite find_entry_set_entry_other; [reflexivity |].
      now rewrite String.eqb_sym.
  - destruct p; [| discriminate].
    intros H. injection H as <-. simpl.
    destruct (String.eqb a b) eqn:Hab; [discriminate |].
    intros _. rewrite find_entry_set_entry_other; [reflexivity |].
    now rewrite String.eqb_sym.
Qed.

Lemma lookup_makedirs_diverge p : forall n n1 r,
  fs_makedirs n p = inr n1 -> diverge p r = true -> lookup n1 r = lookup n r.
Proof.
  induction p as [| a p IH]; intros n n1 r; simpl; [discriminate |].
  destruct n as [c | es]; [discriminate |].
  destruct r as [| b r]; [discriminate |].
  destruct (fs_makedirs
              match find_entry a es with Some c => c | None => Dir [] end p)
    as [e | c'] eqn:Hc; [discriminate |].
  intros H. injection H as <-. simpl.
  destruct (String.eqb a b) eqn:Hab.
  - apply String.eqb_eq in Hab. subst b. rewrite find_entry_set_entry.
    intros Hd. rewrite (IH _ _ _ Hc Hd).
    destruct (find_entry a es) as [c |]; [reflexivity |].
    destruct r; [destruct p; discriminate | reflexivity].
  - intros _. rewrite find_entry_set_entry_other; [reflexivity |].
    now rewrite String.eqb_sym.
Qed.

Lemma lookup_fs_write_diverge fs p data fs1 r :
  fs_write fs p data = inr fs1 -> diverge p r = true ->
  lookup fs1 r = lookup fs r.
Proof.
  unfold fs_write. destruct (lookup fs p) as [[c | es] |];
    try discriminate;
    destruct (put_node fs p (File data)) as [fs' |] eqn:E; try discriminate;
    intros H; injection H as <-; now apply (lookup_put_node_diverge p fs (File data)).
Qed.

Lemma lookup_fs_mkdir_diverge fs p fs1 r :
  fs_mkdir fs p = inr fs1 -> diverge p r = true ->
  lookup fs1 r = lookup fs r.
Proof.
  unfold fs_mkdir. destruct (lookup fs p); [discriminate |].
  destruct (put_node fs p (Dir [])) as [fs' |] eqn:E; [| discriminate].
  intros H. injection H as <-. now apply (lookup_put_node_diverge p fs (Dir [])).
Qed.

Section Keeps.

Variable side : World -> node.
Variable r : path.

Lemma keeps_same {A} (m : M A) :
  (forall w, side (snd (m w)) = side w) -> keeps side r m.
Proof. intros H w. now rewrite H. Qed.

Lemma keeps_bind {A B} (m : M A) (f : A -> M B) :
  keeps side r m -> (forall a, keeps side r (f a)) -> keeps side r (bind m f).
Proof.
  intros Hm Hf w. unfold bind. specialize (Hm w).
  destruct (m w) as [[a | e |] w1]; simpl in *; auto.
  now rewrite Hf.
Qed.

Lemma keeps_for_each {A} (body : A -> M unit) l :
  (forall a, In a l -> keeps side r (body a)) -> keeps side r (for_each body l).
Proof.
  induction l as [| a l IH]; intros Hb; simpl.
  - now intros w.
  - apply keeps_bind; [apply Hb; now left |]. intros _.
    apply IH. intros b Hin. apply Hb. now right.
Qed.

Lemma keeps_try_except {A} (body : M A) catches handler :
  keeps side r body -> (forall e, keeps side r (handler e)) ->
  keeps side r (try_except body catches handler).
Proof.
  intros Hb Hh w. unfold try_except. specialize (Hb w).
  destruct (body w) as [[a | e |] w1]; simpl in *; auto.
  destruct (catches e); simpl; auto. now rewrite Hh.
Qed.

Lemma keeps_try_finally {A} (body : M A) final :
  keeps side r body -> keeps side r final ->
  keeps side r (try_finally body final).
Proof.
  intros Hb Hf w. unfold try_finally. specialize (Hb w).
  destruct (body w) as [[a | e |] w1]; simpl in *; auto;
    specialize (Hf w1); destruct (final w1) as [[[] | e' |] w2]; simpl in *;
    congruence.
Qed.

End Keeps.

Lemma keeps_remote_within fp r {A} (m : M A) :
  fp_remote fp = false -> within fp m -> keeps w_remote r m.
Proof.
  intros Hfp Hm. apply keeps_same. intros w.
  destruct (proj2 (Hm w)) as (_ & _ & _ & _ & _ & _ & _ & H & _). auto.
Qed.

Lemma keeps_local_within fp r {A} (m : M A) :
  fp_local fp = false -> within fp m -> keeps w_local r m.
Proof.
  intros Hfp Hm. apply keeps_same. intros w.
  destruct (proj2 (Hm w)) as (_ & _ & _ & _ & _ & _ & H & _). auto.
Qed.

Lemma keeps_update_remote r f :
  (forall fs fs1, f fs = inr fs1 -> lookup fs1 r = lookup fs r) ->
  keeps w_remote r (update_remote f).
Proof.
  intros H w. unfold update_remote.
  destruct (f (w_remote w)) as [e | fs1] eqn:E; simpl; [reflexivity |].
  now apply H.
Qed.

Lemma keeps_update_local r f :
  (forall fs fs1, f fs = inr fs1 -> lookup fs1 r = lookup fs r) ->
  keeps w_local r (update_local f).
Proof.
  intros H w. unfold update_local.
  destruct (f (w_local w)) as [e | fs1] eqn:E; simpl; [reflexivity |].
  now apply H.
Qed.

Section KeepsMirror.

Variable env : Env.

Lemma keeps_remote_sftp_put lp rp r :
  diverge rp r = true -> keeps w_remote r (sftp_put env lp rp).
Proof.
  intros Hd. unfold sftp_put.
  apply keeps_bind; [apply (keeps_remote_within fp_local_only); [reflexivity | within_auto] |].
  intros data.
  apply keeps_bind; [apply (keeps_remote_within fp_local_only); [reflexivity | within_auto] |].
  intros _. apply keeps_update_remote. intros fs fs1 H.
  now apply (lookup_fs_write_diverge fs rp data).
Qed.

Lemma keeps_remote_mkdir p b r :
  diverge p r = true -> keeps w_remote r (mkdir env p b).
Proof.
  intros Hd. unfold mkdir, mkdir_over.
  apply keeps_try_except.
  - unfold sftp_mkdir.
    apply keeps_bind;
      [apply (keeps_remote_within fp_local_only); [reflexivity | within_auto] |].
    intros _. apply keeps_update_remote. intros fs fs1 H.
    now apply (lookup_fs_mkdir_diverge fs p).
  - intros e. apply (keeps_remote_within fp_local_only); [reflexivity |].
    destruct b; within_auto.
Qed.

Lemma keeps_remote_put_dir_from n : forall source target r,
  diverge target r = true -> keeps w_remote r (put_dir_from env n source target).
Proof.
  induction n as [c | es IH] using node_induction; intros source target r Hd;
    cbn [put_dir_from];
    (apply keeps_bind;
     [apply (keeps_remote_within fp_local_only); [reflexivity | within_auto] |]);
    intros _.
  - apply (keeps_remote_within fp_local_only); [reflexivity | within_auto].
  - apply keeps_for_each. intros [item child] Hin.
    apply keeps_bind;
      [apply (keeps_remote_within fp_local_only); [reflexivity | within_auto] |].
    intros [].
    + apply keeps_remote_sftp_put. now apply diverge_app.
    + apply keeps_bind; [apply keeps_remote_mkdir; now apply diverge_app |].
      intros _. rewrite Forall_forall in IH.
      apply (IH (item, child) Hin). now apply diverge_app.
Qed.

Lemma keeps_local_write_file p data r :
  diverge p r = true -> keeps w_local r (write_file p data).
Proof.
  intros Hd. unfold write_file. apply keeps_update_local. intros fs fs1 H.
  now apply (lookup_fs_write_diverge fs p data).
Qed.

Lemma keeps_local_sftp_get rp lp r :
  diverge lp r = true -> keeps w_local r (sftp_get env rp lp).
Proof.
  intros Hd. unfold sftp_get.
  apply keeps_bind; [now apply keeps_local_write_file |]. intros _.
  apply keeps_bind;
    [apply (keeps_local_within fp_remote_only); [reflexivity | within_auto] |].
  intros _.
  apply keeps_bind;
    [apply (keeps_local_within fp_remote_only); [reflexivity | within_auto] |].
  intros res.
  apply keeps_bind;
    [apply (keeps_local_within fp_remote_only); [reflexivity | within_auto] |].
  intros data. now apply keeps_local_write_file.
Qed.

Lemma keeps_local_get_recursive_from n : forall path dest r,
  diverge dest r = true -> keeps w_local r (get_recursive_from env n path dest).
Proof.
  induction n as [c | es IH] using node_induction; intros path dest r Hd;
    cbn [get_recursive_from];
    (apply keeps_bind;
     [apply (keeps_local_within fp_remote_only); [reflexivity | within_auto] |]);
    intros _;
    (apply keeps_bind;
     [apply (keeps_local_within fp_remote_only); [reflexivity | within_auto] |]);
    intros isdir;
    (apply keeps_bind;
     [destruct isdir;
      [apply (keeps_local_within fp_remote_only); [reflexivity | within_auto]
      | unfold os_makedirs; apply keeps_update_local; intros fs fs1 H;
        now apply (lookup_makedirs_diverge dest fs) ] |]);
    intros _.
  - apply (keeps_local_within fp_remote_only); [reflexivity | within_auto].
  - apply keeps_for_each. intros [filename item] Hin.
    destruct (is_dir item).
    + rewrite Forall_forall in IH.
      apply (IH (filename, item) Hin). now apply diverge_app.
    + apply keeps_local_sftp_get. now apply diverge_app.
Qed.

End KeepsMirror.

(* ================================================================= *)
(** ** The mirror in general: every file arrives *)

Lemma fs_write_lookup fs p data fs1 :
  fs_write fs p data = inr fs1 -> lookup fs1 p = Some (File data).
Proof.
  unfold fs_write. destruct (lookup fs p) as [[c | es] |];
    try discriminate;
    destruct (put_node fs p (File data)) as [fs' |] eqn:E; try discriminate;
    intros H; injection H as <-; now apply (lookup_put_node fs p).
Qed.

Lemma fs_read_lookup fs p data :
  fs_read fs p = inr data -> lookup fs p = Some (File data).
Proof.
  unfold fs_read. destruct (lookup fs p) as [[c | es] |]; try discriminate.
  intros H. now injection H as ->.
Qed.

Lemma holds_files_of_file fs root data :
  lookup fs root = Some (File data) -> holds_files_of fs root (File data).
Proof.
  intros H q d. destruct q as [| z q]; simpl; [| discriminate].
  intros E. injection E as <-. now rewrite app_nil_r.
Qed.

Lemma holds_files_of_dir fs root es :
  (forall x c, In (x, c) es -> holds_files_of fs (root ++ [x]) c) ->
  holds_files_of fs root (Dir es).
Proof.
  intros H q d. destruct q as [| x q]; simpl; [discriminate |].
  destruct (find_entry x es) as [c |] eqn:E; [| discriminate].
  intros Hq. apply find_entry_In in E.
  specialize (H x c E q d Hq). now rewrite <- app_assoc in H.
Qed.

Lemma names_apart done x c todo y d :
  NoDup (names (done ++ (x, c) :: todo)) -> In (y, d) done -> x <> y.
Proof.
  intros Hnd Hin ->. apply find_entry_done_fresh in Hnd.
  apply find_entry_none in Hnd. apply Hnd.
  unfold names. now apply (in_map fst) in Hin.
Qed.

Section Merge.

Variable env : Env.

Lemma run_keeps_local {A} (m : M A) w r w1 :
  within fp_remote_only m -> m w = (r, w1) -> w_local w1 = w_local w.
Proof.
  intros Hm E. destruct (within_run _ _ _ _ _ Hm E)
    as (_ & _ & _ & _ & _ & _ & H & _). auto.
Qed.

Lemma run_keeps_remote {A} (m : M A) w r w1 :
  within fp_local_only m -> m w = (r, w1) -> w_remote w1 = w_remote w.
Proof.
  intros Hm E. destruct (within_run _ _ _ _ _ Hm E)
    as (_ & _ & _ & _ & _ & _ & _ & H & _). auto.
Qed.

Lemma run_keeps {A} side rp (m : M A) w r w1 :
  keeps side rp m -> m w = (r, w1) -> lookup (side w1) rp = lookup (side w) rp.
Proof. intros Hm E. specialize (Hm w). now rewrite E in Hm. Qed.

Lemma sftp_put_inv lp rp w w' :
  sftp_put env lp rp w = (Ok tt, w') ->
  exists data,
    lookup (w_local w) lp = Some (File data) /\
    lookup (w_remote w') rp = Some (File data).
Proof.
  unfold sftp_put, read_file. intros H.
  apply bind_ok_inv in H as (data & w1 & E1 & H).
  apply bind_ok_inv in E1 as (res & w0 & E0 & E1).
  unfold read in E0. injection E0 as <- <-.
  destruct (fs_read (w_local w) lp) as [e | d] eqn:Er; [discriminate |].
  cbn in E1. injection E1 as <- <-.
  apply bind_ok_inv in H as ([] & w2 & E2 & H).
  unfold log in E2. injection E2 as <-.
  unfold update_remote in H. cbn in H.
  destruct (fs_write (w_remote w) rp d) as [e | fs1] eqn:Ew; [discriminate |].
  injection H as <-. cbn.
  exists d. split; [now apply fs_read_lookup | now apply (fs_write_lookup (w_remote w))].
Qed.

Lemma sftp_get_inv rp lp w w' :
  sftp_get env rp lp w = (Ok tt, w') ->
  exists data,
    lookup (w_remote w) rp = Some (File data) /\
    lookup (w_local w') lp = Some (File data).
Proof.
  unfold sftp_get, write_file. intros H.
  apply bind_ok_inv in H as ([] & w1 & E1 & H).
  assert (R1 : w_remote w1 = w_remote w).
  { refine (run_keeps_remote _ _ _ _ _ E1); within_auto. }
  apply bind_ok_inv in H as ([] & w2 & E2 & H).
  unfold log in E2. injection E2 as <-.
  apply bind_ok_inv in H as (res & w3 & E3 & H).
  unfold read in E3. injection E3 as <- <-. cbn in H.
  apply bind_ok_inv in H as (data & w4 & E4 & H).
  rewrite R1 in E4.
  destruct (fs_read (w_remote w) rp) as [e | d] eqn:Er; [discriminate |].
  cbn in E4. injection E4 as <- <-.
  unfold update_local in H. cbn in H.
  destruct (fs_write (w_local w1) lp d) as [e | fs1] eqn:Ew; [discriminate |].
  injection H as <-. cbn.
  exists d. split; [now apply fs_read_lookup | now apply (fs_write_lookup (w_local w1))].
Qed.

(** *** Upload *)

Lemma upload_loop es source target :
  wf_node (Dir es) ->
  Forall (fun e => uploads_files env (snd e)) es ->
  forall todo done w w',
    es = done ++ todo ->
    lookup (w_local w) source = Some (Dir es) ->
    (forall x c, In (x, c) done -> holds_files_of (w_remote w) (target ++ [x]) c) ->
    for_each
      (fun '(item, child) =>
         isfile <- os_path_isfile (source ++ [item]) ;;
         if (isfile : bool)
         then sftp_put env (source ++ [item]) (target ++ [item])
         else
           mkdir env (target ++ [item]) true ;;
           put_dir_from env child (source ++ [item]) (target ++ [item]))
      todo w = (Ok tt, w') ->
    forall x c, In (x, c) es -> holds_files_of (w_remote w') (target ++ [x]) c.
Proof.
  intros Hwf IH. induction todo as [| [x c] todo IHt]; intros done w w' Hes Hl Hinv.
  - cbn. intros H. injection H as <-. rewrite app_nil_r in Hes. now subst done.
  - cbn [for_each]. intros H.
    apply bind_ok_inv in H as ([] & w1 & Hbody & Hrest).
    pose proof (wf_node_names es Hwf) as Hnd. rewrite Hes in Hnd.
    assert (Hc : lookup (w_local w) (source ++ [x]) = Some c).
    { rewrite (lookup_snoc _ _ _ _ Hl), Hes. now apply find_entry_middle. }
    assert (Hin : In (x, c) es).
    { rewrite Hes. apply in_or_app. right. now left. }
    assert (Hkeep : forall r, diverge (target ++ [x]) r = true ->
              lookup (w_remote w1) r = lookup (w_remote w) r).
    { intros r Hd. refine (run_keeps w_remote r _ _ _ _ _ Hbody).
      apply keeps_bind;
        [apply (keeps_remote_within fp_local_only); [reflexivity | within_auto] |].
      intros [].
      - now apply keeps_remote_sftp_put.
      - apply keeps_bind; [now apply keeps_remote_mkdir |].
        intros _. now apply keeps_remote_put_dir_from. }
    assert (Hlocal : w_local w1 = w_local w).
    { refine (run_keeps_local _ _ _ _ _ Hbody).
      within_auto. }
    apply (IHt (done ++ [(x, c)]) w1 w').
    + rewrite <- app_assoc. exact Hes.
    + now rewrite Hlocal.
    + intros y d Hy. apply in_app_or in Hy as [Hy | [Hy | []]].
      * intros q data Hq. rewrite <- app_assoc. cbn [app].
        rewrite Hkeep.
        -- specialize (Hinv y d Hy q data Hq).
           now rewrite <- app_assoc in Hinv.
        -- apply diverge_siblings. eapply names_apart; eauto.
      * injection Hy as <- <-. clear Hkeep.
        unfold bind at 1 in Hbody. unfold os_path_isfile, read in Hbody.
        rewrite Hc in Hbody.
        destruct c as [data | sub].
        -- apply sftp_put_inv in Hbody as (data' & Hl' & Hr').
           rewrite Hc in Hl'. injection Hl' as <-.
           now apply holds_files_of_file.
        -- apply bind_ok_inv in Hbody as ([] & wa & Hmk & Hput).
           rewrite Forall_forall in IH.
           apply (IH (x, Dir sub) Hin (source ++ [x]) (target ++ [x]) wa w1).
           ++ cbn [snd]. rewrite <- Hc. f_equal. refine (run_keeps_local _ _ _ _ _ Hmk); within_auto.
           ++ apply (wf_node_child es x); assumption.
           ++ exact Hput.
    + exact Hrest.
Qed.

Lemma uploads_files_all n : uploads_files env n.
Proof.
  induction n as [data | es IH] using node_induction;
    intros source target w w' Hl Hwf; cbn [put_dir_from]; intros H;
    apply bind_ok_inv in H as (l & w1 & Elist & H).
  - exfalso. revert Elist. unfold os_listdir, bind, read, fs_listdir.
    rewrite Hl. discriminate.
  - assert (E1 : w1 = w).
    { revert Elist. unfold os_listdir, bind, read, fs_listdir.
      rewrite Hl. cbn. intros E. now injection E. }
    subst w1. apply holds_files_of_dir.
    apply (upload_loop es source target Hwf IH es [] w w'); auto.
    intros x c [].
Qed.

(** *** Download *)

Lemma download_loop es path dest :
  wf_node (Dir es) ->
  Forall (fun e => downloads_files env (snd e)) es ->
  forall todo done w w',
    es = done ++ todo ->
    lookup (w_remote w) path = Some (Dir es) ->
    (forall x c, In (x, c) done -> holds_files_of (w_local w) (dest ++ [x]) c) ->
    for_each
      (fun '(filename, item) =>
         if is_dir item
         then get_recursive_from env item (path ++ [filename]) (dest ++ [filename])
         else sftp_get env (path ++ [filename]) (dest ++ [filename]))
      todo w = (Ok tt, w') ->
    forall x c, In (x, c) es -> holds_files_of (w_local w') (dest ++ [x]) c.
Proof.
  intros Hwf IH. induction todo as [| [x c] todo IHt]; intros done w w' Hes Hr Hinv.
  - cbn. intros H. injection H as <-. rewrite app_nil_r in Hes. now subst done.
  - cbn [for_each]. intros H.
    apply bind_ok_inv in H as ([] & w1 & Hbody & Hrest).
    pose proof (wf_node_names es Hwf) as Hnd. rewrite Hes in Hnd.
    assert (Hc : lookup (w_remote w) (path ++ [x]) = Some c).
    { rewrite (lookup_snoc _ _ _ _ Hr), Hes. now apply find_entry_middle. }
    assert (Hin : In (x, c) es).
    { rewrite Hes. apply in_or_app. right. now left. }
    assert (Hkeep : forall r, diverge (dest ++ [x]) r = true ->
              lookup (w_local w1) r = lookup (w_local w) r).
    { intros r Hd. refine (run_keeps w_local r _ _ _ _ _ Hbody).
      destruct (is_dir c).
      - now apply keeps_local_get_recursive_from.
      - now apply keeps_local_sftp_get. }
    assert (Hremote : w_remote w1 = w_remote w).
    { refine (run_keeps_remote _ _ _ _ _ Hbody).
      destruct (is_dir c); within_auto. }
    apply (IHt (done ++ [(x, c)]) w1 w').
    + rewrite <- app_assoc. exact Hes.
    + now rewrite Hremote.
    + intros y d Hy. apply in_app_or in Hy as [Hy | [Hy | []]].
      * intros q data Hq. rewrite <- app_assoc. cbn [app].
        rewrite Hkeep.
        -- specialize (Hinv y d Hy q data Hq).
           now rewrite <- app_assoc in Hinv.
        -- apply diverge_siblings. eapply names_apart; eauto.
      * injection Hy as <- <-. clear Hkeep.
        destruct c as [data | sub]; cbn [is_dir] in Hbody.
        -- apply sftp_get_inv in Hbody as (data' & Hr' & Hl').
           rewrite Hc in Hr'. injection Hr' as <-.
           now apply holds_files_of_file.
        -- rewrite Forall_forall in IH.
           apply (IH (x, Dir sub) Hin (path ++ [x]) (dest ++ [x]) w w1).
           ++ exact Hc.
           ++ apply (wf_node_child es x); assumption.
           ++ exact Hbody.
    + exact Hrest.
Qed.

Lemma downloads_files_all n : downloads_files env n.
Proof.
  induction n as [data | es IH] using node_induction;
    intros path dest w w' Hr Hwf; cbn [get_recursive_from]; intros H;
    apply bind_ok_inv in H as (l & w1 & Elist & H).
  - exfalso. revert Elist. unfold sftp_listdir_attr, log, bind, read, fs_listdir.
    cbn. rewrite Hr. discriminate.
  - assert (R1 : w_remote w1 = w_remote w).
    { refine (run_keeps_remote _ _ _ _ _ Elist); within_auto. }
    apply bind_ok_inv in H as (isdir & w2 & E2 & H).
    unfold os_path_isdir, read in E2. injection E2 as <- <-.
    apply bind_ok_inv in H as ([] & w3 & E3 & H).
    assert (R3 : w_remote w3 = w_remote w1).
    { refine (run_keeps_remote _ _ _ _ _ E3).
      destruct (lookup (w_local w1) dest) as [[c | sub] |]; within_auto. }
    apply holds_files_of_dir.
    apply (download_loop es path dest Hwf IH es [] w3 w'); auto.
    + now rewrite R3, R1.
    + intros x c [].
Qed.

Lemma put_dir_uploads_files source target n w w' :
  lookup (w_local w) source = Some n ->
  wf_node n ->
  put_dir env source target w = (Ok tt, w') ->
  w_local w' = w_local w /\ holds_files_of (w_remote w') target n.
Proof.
  intros Hl Hwf H. split.
  - refine (run_keeps_local _ _ _ _ _ H); within_auto.
  - unfold put_dir, bind at 1, read at 1 in H. rewrite Hl in H.
    exact (uploads_files_all n source target w w' Hl Hwf H).
Qed.

Lemma get_recursive_downloads_files path dest n w w' :
  lookup (w_remote w) path = Some n ->
  wf_node n ->
  get_recursive env path dest w = (Ok tt, w') ->
  w_remote w' = w_remote w /\ holds_files_of (w_local w') dest n.
Proof.
  intros Hr Hwf H. split.
  - refine (run_keeps_remote _ _ _ _ _ H); within_auto.
  - unfold get_recursive, bind at 1, read at 1 in H. rewrite Hr in H.
    exact (downloads_files_all n path dest w w' Hr Hwf H).
Qed.

(** X12. An upload that returns has put every regular file of the source
    directory on the droplet, at the same relative path below the target
    and with the same content, whatever the target held before; the
    local tree is as it was. *)
Theorem put_dir_uploads_every_file source target n w w' :
  lookup (w_local w) source = Some n ->
  wf_node n ->
  put_dir env source target w = (Ok tt, w') ->
  w_local w' = w_local w /\
  forall q data,
    lookup n q = Some (File data) ->
    lookup (w_remote w') (target ++ q) = Some (File data).
Proof.
  intros Hl Hwf H. split.
  - refine (run_keeps_local _ _ _ _ _ H); within_auto.
  - unfold put_dir, bind at 1, read at 1 in H. rewrite Hl in H.
    exact (uploads_files_all n source target w w' Hl Hwf H).
Qed.

(** X13. A download that returns has put every regular file of the remote
    directory into the local tree, at the same relative path below the
    destination and with the same content, whatever the destination held
    before; the remote tree is as it was. *)
Theorem get_recursive_downloads_every_file path dest n w w' :
  lookup (w_remote w) path = Some n ->
  wf_node n ->
  get_recursive env path dest w = (Ok tt, w') ->
  w_remote w' = w_remote w /\
  forall q data,
    lookup n q = Some (File data) ->
    lookup (w_local w') (dest ++ q) = Some (File data).
Proof.
  intros Hr Hwf H. split.
  - refine (run_keeps_remote _ _ _ _ _ H); within_auto.
  - unfold get_recursive, bind at 1, read at 1 in H. rewrite Hr in H.
    exact (downloads_files_all n path dest w w' Hr Hwf H).
Qed.


End Merge.

Lemma put_dir_uploads_every_file_witness :
  lookup (w_remote served_world) ["Cache"; "players.cfg"] = Some (File "alice") /\
  lookup (w_remote (snd (put_dir sample_env ["Cache"] ["Cache"] served_world)))
    ["Cache"; "players.cfg"]
  = Some (File "none").
Proof.
  split; [reflexivity |].
  refine (proj2 (put_dir_uploads_every_file sample_env ["Cache"] ["Cache"]
                   (Dir [("players.cfg", File "none")]) served_world
                   (snd (put_dir sample_env ["Cache"] ["Cache"] served_world))
                   _ _ _)
            ["players.cfg"] "none" _).
  - reflexivity.
  - simpl. repeat split; repeat constructor; simpl; intuition discriminate.
  - vm_compute. reflexivity.
  - reflexivity.
Defined.

Lemma get_recursive_downloads_every_file_witness :
  lookup (w_local served_world) ["Cache"; "players.cfg"] = Some (File "none") /\
  lookup (w_local (snd (get_recursive sample_env ["Cache"] ["Cache"] served_world)))
    ["Cache"; "players.cfg"]
  = Some (File "alice").
Proof.
  split; [reflexivity |].
  apply (proj2 (get_recursive_downloads_every_file sample_env ["Cache"] ["Cache"]
                  (Dir [("players.cfg", File "alice"); ("maps", Dir [])])
                  served_world
                  (snd (get_recursive sample_env ["Cache"] ["Cache"] served_world))
                  eq_refl
                  ltac:(simpl; repeat split; repeat constructor; simpl;
                        intuition discriminate)
                  eq_refl)
           ["players.cfg"] "alice" eq_refl).
Defined.


(* ================================================================= *)
(** ** What the commands transfer *)

Lemma try_finally_ok_inv {A} (body : M A) final w a w' :
  try_finally body final w = (Ok a, w') ->
  exists w1, body w = (Ok a, w1) /\ final w1 = (Ok tt, w').
Proof.
  unfold try_finally. destruct (body w) as [[b | e |] w1]; try discriminate;
    destruct (final w1) as [[[] | e' |] w2] eqn:E; try discriminate;
    intros H; injection H as <- <-; eauto.
Qed.

Lemma run_keeps_trees {A} (m : M A) w r w1 :
  within fp_no_tree m -> m w = (r, w1) ->
  w_local w1 = w_local w /\ w_remote w1 = w_remote w.
Proof.
  intros Hm E. destruct (within_run _ _ _ _ _ Hm E)
    as (_ & _ & _ & _ & _ & _ & Hl & Hr & _). auto.
Qed.

(** Both trees are as they were after a step that writes neither. *)
Ltac keep_trees E L R :=
  match type of E with
  | ?m ?w = (_, ?w1) =>
      assert (L : w_local w1 = w_local w /\ w_remote w1 = w_remote w)
        by (refine (run_keeps_trees m w _ w1 _ E); within_auto);
      destruct L as [L R]
  end.

Section Transfer.

Variable env : Env.

(** X15. When [run_command_down] returns, every regular file of the
    remote [Cache] directory is in the local [Cache] directory, at the
    same relative path and with the same content, whatever the local
    directory held before. *)
Theorem run_command_down_downloads_the_cache config n w w' :
  lookup (w_remote w) ["Cache"] = Some n ->
  wf_node n ->
  run_command_down env config w = (Ok tt, w') ->
  forall q data,
    lookup n q = Some (File data) ->
    lookup (w_local w') ("Cache" :: q) = Some (File data).
Proof.
  intros Hn Hwf H. unfold run_command_down in H.
  apply bind_ok_inv in H as (ssh & w1 & E1 & H).
  keep_trees E1 L1 R1.
  apply bind_ok_inv in H as (sftp & w2 & E2 & H).
  keep_trees E2 L2 R2.
  apply bind_ok_inv in H as ([] & w3 & E3 & H).
  assert (Hn2 : lookup (w_remote w2) ["Cache"] = Some n) by now rewrite R2, R1.
  destruct (get_recursive_downloads_files env ["Cache"] ["Cache"] n w2 w3 Hn2 Hwf E3)
    as [_ Hfiles].
  keep_trees H L4 R4.
  intros q data Hq. rewrite L4. exact (Hfiles q data Hq).
Qed.

End Transfer.

(** One step of an argument that [r] keeps what it holds on the droplet:
    a transfer to a path that [r] leaves, or an action that does not
    write the remote tree at all. *)
Ltac keeps_remote_step :=
  cbv beta zeta;
  lazymatch goal with
  | |- keeps w_remote _ (bind _ _) => apply keeps_bind; [| intros ?]
  | |- keeps w_remote _ (try_finally _ _) => apply keeps_try_finally
  | |- keeps w_remote _ (sftp_put _ _ _) =>
      apply keeps_remote_sftp_put; cbn; try rewrite String.eqb_refl; reflexivity
  | |- keeps w_remote _ (mkdir _ _ _) =>
      apply keeps_remote_mkdir; cbn; try rewrite String.eqb_refl; reflexivity
  | |- keeps w_remote _ (put_dir _ _ _) => unfold put_dir
  | |- keeps w_remote _ (put_dir_from _ _ _ _) =>
      apply keeps_remote_put_dir_from; cbn; try rewrite String.eqb_refl;
      reflexivity
  | |- keeps w_remote _ (with_tempdir _ _) => unfold with_tempdir
  | |- keeps w_remote _ _ =>
      apply (keeps_remote_within fp_no_remote); [reflexivity | solve [within_auto]]
  end.

Section SetupKagUploads.

Variable env : Env.

(** The block of [setup_kag] under [with tempfile.TemporaryDirectory()]
    writes three entries of the remote home directory. *)
Lemma setup_kag_tempdir_keeps config r :
  diverge ["autoconfig.cfg"] r = true ->
  diverge ["mods.cfg"] r = true ->
  diverge ["Security"] r = true ->
  keeps w_remote r
    (with_tempdir env
       (fun tmp_dir =>
          write_file (tmp_dir ++ ["autoconfig.cfg"]) "" ;;
          kag <- lift (py_getitem config "kag") ;;
          autoconfig <- lift (py_getitem kag "autoconfig") ;;
          items <- lift (py_items autoconfig) ;;
          write_file (tmp_dir ++ ["autoconfig.cfg"]) (autoconfig_text env items) ;;
          write_file (tmp_dir ++ ["mods.cfg"]) "" ;;
          kag <- lift (py_getitem config "kag") ;;
          mods <- lift (py_getitem kag "mods") ;;
          mods <- lift (py_iter mods) ;;
          write_file (tmp_dir ++ ["mods.cfg"]) (mods_text env mods) ;;
          let tmp_security_dir := tmp_dir ++ ["Security"] in
          os_mkdir tmp_security_dir ;;
          copyfile ["Security"; "seclevs.cfg"] (tmp_security_dir ++ ["seclevs.cfg"]) ;;
          copyfile ["Security"; "normal.cfg"] (tmp_security_dir ++ ["normal.cfg"]) ;;
          security_file config "superadmins" "superadmin.cfg" tmp_security_dir ;;
          security_file config "admins" "admin.cfg" tmp_security_dir ;;
          sftp_put env (tmp_dir ++ ["autoconfig.cfg"]) ["autoconfig.cfg"] ;;
          sftp_put env (tmp_dir ++ ["mods.cfg"]) ["mods.cfg"] ;;
          mkdir env ["Security"] true ;;
          put_dir env tmp_security_dir ["Security"])).
Proof.
  intros Ha Hm Hs. unfold with_tempdir.
  apply keeps_bind; [keeps_remote_step | intros name].
  apply keeps_bind; [keeps_remote_step | intros _].
  apply keeps_try_finally; [| keeps_remote_step].
  cbv zeta.
  do 15 (apply keeps_bind; [keeps_remote_step | intros ?]).
  apply keeps_bind; [now apply keeps_remote_sftp_put | intros _].
  apply keeps_bind; [now apply keeps_remote_sftp_put | intros _].
  apply keeps_bind; [now apply keeps_remote_mkdir | intros _].
  unfold put_dir. apply keeps_bind; [keeps_remote_step | intros n].
  now apply keeps_remote_put_dir_from.
Qed.

(** X16. When [setup_kag] returns, the droplet holds the local
    [docker-compose.yaml], and every regular file of the local [Mods] and
    [Cache] directories at the same relative path and with the same
    content, whatever it held before. *)
Theorem setup_kag_uploads_mods_and_cache config mods cache w w' :
  lookup (w_local w) ["Mods"] = Some mods ->
  wf_node mods ->
  lookup (w_local w) ["Cache"] = Some cache ->
  wf_node cache ->
  setup_kag env config w = (Ok tt, w') ->
  lookup (w_remote w') ["docker-compose.yaml"]
  = lookup (w_local w) ["docker-compose.yaml"] /\
  (forall q data,
      lookup mods q = Some (File data) ->
      lookup (w_remote w') ("Mods" :: q) = Some (File data)) /\
  (forall q data,
      lookup cache q = Some (File data) ->
      lookup (w_remote w') ("Cache" :: q) = Some (File data)).
Proof.
  intros Hmods Wmods Hcache Wcache H. unfold setup_kag in H.
  apply bind_ok_inv in H as (ssh & w1 & E1 & H). keep_trees E1 L1 R1.
  apply bind_ok_inv in H as (sftp & w2 & E2 & H). keep_trees E2 L2 R2.
  apply bind_ok_inv in H as ([] & w3 & E3 & H).
  assert (L3 : w_local w3 = w_local w2)
    by (refine (run_keeps_local _ _ _ _ _ E3); within_auto).
  apply sftp_put_inv in E3 as (compose & Hlc & Hrc).
  pose proof H as Kc.
  apply (run_keeps w_remote ["docker-compose.yaml"]) in Kc;
    [| repeat keeps_remote_step].
  apply bind_ok_inv in H as ([] & w4 & E4 & H).
  assert (L4 : w_local w4 = w_local w3)
    by (refine (run_keeps_local _ _ _ _ _ E4); within_auto).
  apply bind_ok_inv in H as ([] & w5 & E5 & H).
  assert (Hm4 : lookup (w_local w4) ["Mods"] = Some mods)
    by now rewrite L4, L3, L2, L1.
  destruct (put_dir_uploads_files env ["Mods"] ["Mods"] mods w4 w5 Hm4 Wmods E5)
    as [L5 Fm].
  assert (Km : forall q, lookup (w_remote w') ("Mods" :: q)
                         = lookup (w_remote w5) ("Mods" :: q)).
  { intros q. apply (run_keeps w_remote ("Mods" :: q)) in H; [exact H |].
    repeat keeps_remote_step. }
  apply bind_ok_inv in H as ([] & w6 & E6 & H).
  assert (L6 : w_local w6 = w_local w5)
    by (refine (run_keeps_local _ _ _ _ _ E6); within_auto).
  apply bind_ok_inv in H as ([] & w7 & E7 & H).
  assert (Hc6 : lookup (w_local w6) ["Cache"] = Some cache)
    by now rewrite L6, L5, L4, L3, L2, L1.
  destruct (put_dir_uploads_files env ["Cache"] ["Cache"] cache w6 w7 Hc6 Wcache E7)
    as [L7 Fc].
  assert (Kk : forall q, lookup (w_remote w') ("Cache" :: q)
                         = lookup (w_remote w7) ("Cache" :: q)).
  { intros q. apply (run_keeps w_remote ("Cache" :: q)) in H; [exact H |].
    repeat keeps_remote_step. }
  split_all.
  - rewrite Kc, Hrc, <- L1, <- L2. now rewrite Hlc.
  - intros q data Hq. rewrite Km. exact (Fm q data Hq).
  - intros q data Hq. rewrite Kk. exact (Fc q data Hq).
Qed.

End SetupKagUploads.

Lemma lift_ok_inv {A} (r : exn + A) w a w1 :
  lift r w = (Ok a, w1) -> r = inr a /\ w1 = w.
Proof.
  destruct r as [e | b]; cbn; [discriminate |].
  intros H. injection H as <- <-. auto.
Qed.

Lemma write_file_inv p data w w1 :
  write_file p data w = (Ok tt, w1) ->
  lookup (w_local w1) p = Some (File data) /\ w_remote w1 = w_remote w.
Proof.
  unfold write_file, update_local.
  destruct (fs_write (w_local w) p data) as [e | fs1] eqn:E; [discriminate |].
  intros H. injection H as <-. cbn. split; [| reflexivity].
  now apply (fs_write_lookup (w_local w)).
Qed.

(** One step of an argument that [r] keeps what it holds locally. *)
Ltac keeps_local_step :=
  cbv beta zeta;
  lazymatch goal with
  | |- keeps w_local _ (bind _ _) => apply keeps_bind; [| intros ?]
  | |- keeps w_local _ (write_file _ _) =>
      apply keeps_local_write_file; cbn; try rewrite String.eqb_refl; reflexivity
  | |- keeps w_local _ (os_mkdir _) =>
      unfold os_mkdir; apply keeps_update_local;
      let H := fresh in
      intros ? ? H; apply (lookup_fs_mkdir_diverge _ _ _ _ H);
      cbn; try rewrite String.eqb_refl; reflexivity
  | |- keeps w_local _ (copyfile _ _) => unfold copyfile
  | |- keeps w_local _ (security_file _ _ _ _) => unfold security_file
  | |- keeps w_local _ _ =>
      apply (keeps_local_within fp_no_local); [reflexivity | solve [within_auto]]
  end.

(** Follow a run one action further, carrying along what the local tree
    holds at a path the action leaves alone. *)
Ltac carry_local Hl H :=
  let a := fresh "a" in
  let wn := fresh "w" in
  let E := fresh "E" in
  apply bind_ok_inv in H as (a & wn & E & H);
  match type of Hl with
  | lookup (w_local _) ?r = _ =>
      apply (run_keeps w_local r) in E; [| solve [repeat keeps_local_step]];
      rewrite <- E in Hl; clear E
  end.

Ltac carry_local2 Hl Hl' H :=
  let a := fresh "a" in
  let wn := fresh "w" in
  let E := fresh "E" in
  let E' := fresh "E" in
  apply bind_ok_inv in H as (a & wn & E & H);
  pose proof E as E';
  match type of Hl with
  | lookup (w_local _) ?r = _ =>
      apply (run_keeps w_local r) in E; [| solve [repeat keeps_local_step]];
      rewrite <- E in Hl; clear E
  end;
  match type of Hl' with
  | lookup (w_local _) ?r = _ =>
      apply (run_keeps w_local r) in E'; [| solve [repeat keeps_local_step]];
      rewrite <- E' in Hl'; clear E'
  end.

Section SetupKagConfiguration.

Variable env : Env.

(** X17. When [setup_kag] returns, the droplet's [autoconfig.cfg] holds
    one line [key = value] for each entry of [config["kag"]["autoconfig"]],
    and its [mods.cfg] one line for each element that iterating over
    [config["kag"]["mods"]] yields, in their order. *)
Theorem setup_kag_writes_the_server_configuration config w w' :
  setup_kag env config w = (Ok tt, w') ->
  exists autoconfig items mods names,
    kag_item config "autoconfig" = inr autoconfig /\
    py_items autoconfig = inr items /\
    kag_item config "mods" = inr mods /\
    py_iter mods = inr names /\
    lookup (w_remote w') ["autoconfig.cfg"]
    = Some (File (autoconfig_text env items)) /\
    lookup (w_remote w') ["mods.cfg"] = Some (File (mods_text env names)).
Proof.
  intros H. unfold setup_kag in H.
  do 7 (apply bind_ok_inv in H as (? & ? & _ & H)).
  apply bind_ok_inv in H as ([] & w8 & E8 & H).
  keep_trees H L9 R9. clear H.
  unfold with_tempdir in E8.
  apply bind_ok_inv in E8 as (name & ? & _ & E8).
  apply bind_ok_inv in E8 as ([] & wa & _ & E8).
  apply try_finally_ok_inv in E8 as (wb & Hb & Hfinal).
  assert (Rb : w_remote w8 = w_remote wb)
    by (refine (run_keeps_remote _ _ _ _ _ Hfinal); within_auto).
  clear Hfinal. cbv beta zeta in Hb.
  apply bind_ok_inv in Hb as (? & ? & _ & Hb).
  apply bind_ok_inv in Hb as (kag & ? & Ekag & Hb).
  apply lift_ok_inv in Ekag as [Ekag ->].
  apply bind_ok_inv in Hb as (autoconfig & ? & Eauto & Hb).
  apply lift_ok_inv in Eauto as [Eauto ->].
  apply bind_ok_inv in Hb as (items & ? & Eitems & Hb).
  apply lift_ok_inv in Eitems as [Eitems ->].
  apply bind_ok_inv in Hb as ([] & ? & Ewa & Hb).
  apply write_file_inv in Ewa as [La _].
  carry_local La Hb.
  apply bind_ok_inv in Hb as (kag' & ? & Ekag' & Hb).
  apply lift_ok_inv in Ekag' as [Ekag' ->].
  apply bind_ok_inv in Hb as (mods & ? & Emods & Hb).
  apply lift_ok_inv in Emods as [Emods ->].
  apply bind_ok_inv in Hb as (names & ? & Enames & Hb).
  apply lift_ok_inv in Enames as [Enames ->].
  apply bind_ok_inv in Hb as ([] & ? & Ewm & Hb).
  pose proof Ewm as Ewm'.
  apply write_file_inv in Ewm as [Lm _].
  apply (run_keeps w_local ([name] ++ ["autoconfig.cfg"])) in Ewm';
    [| solve [repeat keeps_local_step]].
  rewrite <- Ewm' in La. clear Ewm'.
  do 5 (carry_local2 La Lm Hb).
  exists autoconfig, items, mods, names.
  assert (kag' = kag) by congruence. subst kag'.
  unfold kag_item. rewrite Ekag.
  split_all; auto.
  - (* autoconfig.cfg *)
    apply bind_ok_inv in Hb as ([] & wc & Eput & Hb).
    apply sftp_put_inv in Eput as (data & Hl & Hr).
    rewrite La in Hl. injection Hl as <-.
    apply (run_keeps w_remote ["autoconfig.cfg"]) in Hb;
      [| repeat keeps_remote_step].
    now rewrite R9, Rb, Hb.
  - (* mods.cfg *)
    apply bind_ok_inv in Hb as ([] & wc & Eput & Hb).
    match type of Eput with
    | _ ?w0 = _ =>
        assert (Lc : w_local wc = w_local w0)
          by (refine (run_keeps_local _ _ _ _ _ Eput); within_auto)
    end.
    apply bind_ok_inv in Hb as ([] & wd & Eput' & Hb).
    apply sftp_put_inv in Eput' as (data & Hl & Hr).
    rewrite Lc, Lm in Hl. injection Hl as <-.
    apply (run_keeps w_remote ["mods.cfg"]) in Hb;
      [| repeat keeps_remote_step].
    now rewrite R9, Rb, Hb.
Qed.

End SetupKagConfiguration.

Lemma run_command_down_downloads_the_cache_witness :
  lookup (w_local served_world) ["Cache"; "players.cfg"] = Some (File "none") /\
  lookup (w_local (snd (run_command_down sample_env sample_config served_world)))
    ["Cache"; "players.cfg"]
  = Some (File "alice").
Proof.
  split; [reflexivity |].
  refine (run_command_down_downloads_the_cache sample_env sample_config
            (Dir [("players.cfg", File "alice"); ("maps", Dir [])])
            served_world
            (snd (run_command_down sample_env sample_config served_world))
            _ _ _ ["players.cfg"] "alice" _).
  - reflexivity.
  - simpl. repeat split; repeat constructor; simpl; intuition discriminate.
  - vm_compute. reflexivity.
  - reflexivity.
Defined.

Lemma setup_kag_uploads_mods_and_cache_witness :
  lookup (w_remote (snd (setup_kag sample_env sample_config provisioned_world)))
    ["docker-compose.yaml"]
  = lookup (w_local provisioned_world) ["docker-compose.yaml"] /\
  lookup (w_remote (snd (setup_kag sample_env sample_config provisioned_world)))
    ["Mods"; "ModA"; "rules.cfg"]
  = Some (File "gamemode").
Proof.
  assert (H : setup_kag sample_env sample_config provisioned_world
              = (Ok tt, snd (setup_kag sample_env sample_config provisioned_world)))
    by (vm_compute; reflexivity).
  assert (Wm : wf_node
                 (Dir [("ModA", Dir [("rules.cfg", File "gamemode"); ("Maps", Dir [])])]))
    by (simpl; repeat split; repeat constructor; simpl; intuition discriminate).
  assert (Wc : wf_node (Dir [("players.cfg", File "none")]))
    by (simpl; repeat split; repeat constructor; simpl; intuition discriminate).
  destruct (setup_kag_uploads_mods_and_cache sample_env sample_config
              (Dir [("ModA", Dir [("rules.cfg", File "gamemode"); ("Maps", Dir [])])])
              (Dir [("players.cfg", File "none")])
              provisioned_world
              (snd (setup_kag sample_env sample_config provisioned_world))
              eq_refl Wm eq_refl Wc H)
    as (Hc & Hm & _).
  split; [exact Hc | exact (Hm ["ModA"; "rules.cfg"] "gamemode" eq_refl)].
Defined.

Lemma setup_kag_writes_the_server_configuration_witness :
  exists autoconfig items mods names,
    kag_item sample_config "autoconfig" = inr autoconfig /\
    py_items autoconfig = inr items /\
    kag_item sample_config "mods" = inr mods /\
    py_iter mods = inr names /\
    lookup (w_remote (snd (setup_kag sample_env sample_config provisioned_world)))
      ["autoconfig.cfg"]
    = Some (File (autoconfig_text sample_env items)) /\
    lookup (w_remote (snd (setup_kag sample_env sample_config provisioned_world)))
      ["mods.cfg"]
    = Some (File (mods_text sample_env names)).
Proof.
  apply (setup_kag_writes_the_server_configuration sample_env sample_config
           provisioned_world).
  vm_compute. reflexivity.
Defined.

(* ================================================================= *)
(** ** run_command_down: the download comes first *)

Section Teardown.

Variable env : Env.

(** A download that returns has asked for the listing of its source. *)
Lemma get_recursive_lists path dest w w' :
  get_recursive env path dest w = (Ok tt, w') ->
  exists l, w_trace w' = w_trace w ++ EvSftpListdir path :: l.
Proof.
  unfold get_recursive. intros H.
  apply bind_ok_inv in H as (n & w0 & E0 & H).
  unfold read in E0. injection E0 as _ <-.
  assert (Hlist : exists es wa rest,
             sftp_listdir_attr env path w = (Ok es, wa) /\
             rest wa = (Ok tt, w') /\ within (fp_io any_call) rest).
  { destruct n as [data | es]; cbn [get_recursive_from] in H;
      apply bind_ok_inv in H as (l & wa & E & H);
      exists l, wa; eexists; (split_all; [exact E | exact H | within_auto]). }
  destruct Hlist as (es & wa & rest & E & Hrest & Hwithin).
  assert (Ta : w_trace wa = w_trace w ++ [EvSftpListdir path]).
  { revert E. unfold sftp_listdir_attr, bind, log, read. cbn.
    destruct (fs_listdir (w_remote w) path); cbn; [discriminate |].
    intros E. now injection E as _ <-. }
  destruct (changes_trace _ _ _ (within_run _ _ _ _ _ Hwithin Hrest))
    as (l & Tl & _).
  exists l. rewrite Tl, Ta, <- app_assoc. reflexivity.
Qed.

(** C8. Of the calls [run_command_down] makes, the request to destroy the
    droplet, when it is made at all, is the last one: it is made once
    [get_recursive] has returned from downloading the cache, and nothing
    is downloaded after it. By then the remote [Cache] has been listed,
    and every regular file it holds is in the local [Cache], with its
    content. When the download raises, the droplet is not destroyed. *)
Theorem run_command_down_destroys_after_download config w :
  exists l,
    w_trace (snd (run_command_down env config w)) = w_trace w ++ l /\
    (forallb no_destroy l = true \/
     exists l0 sftp w1 w2,
       l = l0 ++ [EvDropletDestroy] /\
       forallb no_destroy l0 = true /\
       In (EvSftpListdir ["Cache"]) l0 /\
       (ssh <- open_ssh_connection env ;; open_sftp env ssh) w = (Ok sftp, w1) /\
       get_recursive env ["Cache"] ["Cache"] w1 = (Ok tt, w2) /\
       w_trace w2 = w_trace w ++ l0 /\
       w_local (snd (run_command_down env config w)) = w_local w2 /\
       forall n,
         lookup (w_remote w) ["Cache"] = Some n ->
         wf_node n ->
         forall q data,
           lookup n q = Some (File data) ->
           lookup (w_local w2) ("Cache" :: q) = Some (File data)).
Proof.
  unfold run_command_down.
  split_bind (fp_io no_destroy);
    [| destruct (changes_trace _ _ _ C) as (l & T & F); exists l; auto].
  split_bind (fp_io no_destroy);
    [| assert (C' := changes_trans _ _ _ _ C C0);
       destruct (changes_trace _ _ _ C') as (l & T & F); exists l; auto].
  assert (C01 := changes_trans _ _ _ _ C C0).
  split_bind (fp_io no_destroy);
    [| assert (C' := changes_trans _ _ _ _ C01 C1);
       destruct (changes_trace _ _ _ C') as (l & T & F); exists l; auto].
  assert (C012 := changes_trans _ _ _ _ C01 C1).
  split_bind (fp_io no_destroy);
    [| assert (C' := changes_trans _ _ _ _ C012 C2);
       destruct (changes_trace _ _ _ C') as (l & T & F); exists l; auto].
  apply the_droplet_pure in E2. subst w3.
  destruct (changes_trace _ _ _ C012) as (l0 & T & F).
  destruct (changes_trace _ _ _ C01) as (l01 & T01 & _).
  exists (l0 ++ [EvDropletDestroy]). split.
  - rewrite external_trace, T. now rewrite app_assoc.
  - right. exists l0, a0, w1, w2. destruct a1.
    keep_trees E L0 R0. keep_trees E0 L1 R1.
    split_all; auto.
    + destruct (get_recursive_lists _ _ _ _ E1) as (l' & T').
      rewrite T01, T, <- app_assoc in T'. apply app_inv_head in T'.
      rewrite T'. apply in_or_app. right. now left.
    + unfold bind. now rewrite E.
    + match goal with
      | |- w_local (snd (?m w2)) = _ =>
          assert (K : within fp_no_tree m) by within_auto;
          destruct (proj2 (K w2)) as (_ & _ & _ & _ & _ & _ & Hl & _)
      end.
      exact (Hl eq_refl).
    + intros n Hn Hwf.
      assert (Hn1 : lookup (w_remote w1) ["Cache"] = Some n)
        by now rewrite R1, R0.
      destruct (get_recursive_downloads_files env ["Cache"] ["Cache"] n w1 w2
                  Hn1 Hwf E1) as [_ Hfiles].
      exact Hfiles.
Qed.

End Teardown.

(* ================================================================= *)
(** ** The round trip over directories that exist already *)


Lemma kind_at_none n p q :
  lookup n p = None -> kind_at n (p ++ q) = Absent.
Proof. unfold kind_at. rewrite lookup_app. now intros ->. Qed.










(** *** No name twice, before and after *)







Section RoundTrip.

Variable env : Env.



(** *** Upload *)



(** *** Download *)






End RoundTrip.

(** *** Trees stay free of repeated names *)




Section StaysWf.

Variable side : World -> node.





End StaysWf.







Section StaysWfMirror.

Variable env : Env.




End StaysWfMirror.

(** *** Trees alike at every path are equivalent *)










(** *** The round trip *)

Section RoundTripClaim.

Variable env : Env.


End RoundTripClaim.



